(** * OpenMDAO: the [Iterate] driver and the [VariableTree] container

    A shallow embedding of

    - [openmdao/lib/drivers/iterate.py]  (class [Iterate], method [execute]);
    - [openmdao/main/vartree.py]         (class [VariableTree]: the [iotype]
      setter, [tree_rooted], [_input_trait_modified] and [get_iotype]);
    - [openmdao/gui/test/functional/pageobjects/elements.py] (the
      descriptor [BaseElement] and the setters of the checkbox and of the
      text input).

    Python floats and numpy's float64 are IEEE binary64 numbers: they are
    the primitive floats of the Standard Library.  Python integers are [Z].
    numpy arrays of rank one are lists, read and written by index with the
    bounds checks numpy performs. *)

From Stdlib Require Import ZArith Floats String Bool Lia.
From stdpp Require Import base list strings gmap.

Set Warnings "-inexact-float,-register-all".
Local Open Scope string_scope.
Local Open Scope Z_scope.
Local Open Scope list_scope.

(* ===================================================================== *)
(** * The iteration driver                                                *)
(* ===================================================================== *)

Module Iterate.

(** ** Exceptions *)

(** The exceptions [execute] can end with.  [RunStopped] and [RuntimeError]
    are raised through [self.raise_exception(msg, cls)], with [msg] as it
    is given there (the container puts the path of the driver before it);
    [ValueError] and
    [IndexError] are numpy's ([zeros] of a negative size, an index out of
    bounds); [Propagated] is whatever the workflow or one of the two
    expressions raised, which [execute] never catches. *)
Inductive exn :=
| RunStopped (msg : string)
| RuntimeError (msg : string)
| ValueError
| IndexError
| Propagated (what : string).

(** ** The collaborators of the driver

    [run_iteration] (inherited from [Driver]) runs the workflow once,
    [loop_end.evaluate()] reads the feedback sink, [loop_start.set(v)]
    writes the feedback source.  None of them is defined in iterate.py, and
    each may raise.  [_stop] is the flag that [Driver.stop()] sets, from a
    component of the workflow or from outside: it is read from the world
    the workflow left behind. *)
Class Workflow (W : Type) := {
  run_iteration : W -> string + W;
  loop_end_evaluate : W -> string + float;
  loop_start_set : float -> W -> string + W;
  _stop : W -> bool
}.

(** What the driver asks of its collaborators, in order. *)
Inductive event :=
| EvRun                      (* self.run_iteration()              *)
| EvSet (v : float)          (* self.loop_start.set(v)            *)
| EvEvaluate (v : float).    (* self.loop_end.evaluate() gave [v] *)

(** ** The driver object *)

Record Iterate := mkIterate {
  max_iteration : Z;          (* Int(25, iotype='in')        *)
  tolerance : float;          (* Float(0.00001, iotype='in') *)
  history : list float;       (* self.history                *)
  current_iteration : Z       (* self.current_iteration      *)
}.

(** [Iterate.__init__]: the traits take their defaults, [history] is
    [zeros(0)] and [current_iteration] is 0. *)
Definition __init__ : Iterate :=
  {| max_iteration := 25;
     tolerance := 0.00001%float;
     history := [];
     current_iteration := 0 |}.

(** ** numpy arrays of rank one *)

(** [zeros(n)]: [ValueError] on a negative dimension. *)
Definition zeros (n : Z) : exn + list float :=
  if n <? 0 then inl ValueError else inr (replicate (Z.to_nat n) 0%float).

(** An index [i] into an array of length [len]: negative indices count
    from the end, anything else out of range is an [IndexError]. *)
Definition index (len i : Z) : exn + nat :=
  if (0 <=? i) && (i <? len) then inr (Z.to_nat i)
  else if (- len <=? i) && (i <? 0) then inr (Z.to_nat (len + i))
  else inl IndexError.

(** [a[i]] *)
Definition getitem (a : list float) (i : Z) : exn + float :=
  match index (Z.of_nat (length a)) i with
  | inl e => inl e
  | inr n => match a !! n with Some v => inr v | None => inl IndexError end
  end.

(** [a[i] = v] *)
Definition setitem (a : list float) (i : Z) (v : float) : exn + list float :=
  match index (Z.of_nat (length a)) i with
  | inl e => inl e
  | inr n => inr (<[n := v]> a)
  end.

(** [a[:k]]: a negative [k] counts from the end, and the bound is clipped
    to the array. *)
Definition slice_to (a : list float) (k : Z) : list float :=
  take (Z.to_nat (if k <? 0 then Z.of_nat (length a) + k else k)) a.

(** ** The state and error monad of [execute] *)

Section Driver.

Context {W : Type} {wf : Workflow W}.

(** The state [execute] works on: the driver object, the world of the
    workflow, and the log of the calls made so far. *)
Record Env := mkEnv {
  self : Iterate;
  world : W;
  trace : list event
}.

(** How a computation ends: with a value, with an exception (the state is
    the one at the [raise]), or without an answer because the bound on
    the number of loop steps was too small ([OutOfFuel] is not a Python
    outcome; [execute_total] shows that [execute] never yields it). *)
Inductive outcome (A : Type) :=
| Return (a : A) (s : Env)
| Raise (e : exn) (s : Env)
| OutOfFuel.
Arguments Return {A} a s.
Arguments Raise {A} e s.
Arguments OutOfFuel {A}.

Definition M (A : Type) := Env -> outcome A.

Definition ret {A} (a : A) : M A := fun s => Return a s.

Definition bind {A B} (m : M A) (k : A -> M B) : M B :=
  fun s => match m s with
           | Return a s' => k a s'
           | Raise e s' => Raise e s'
           | OutOfFuel => OutOfFuel
           end.

Notation "x <- m ;; k" := (bind m (fun x => k))
  (at level 100, m at next level, right associativity).
Notation "m ;; k" := (bind m (fun _ => k))
  (at level 100, right associativity).

(** [self.raise_exception(msg, cls)] *)
Definition raise_exception {A} (e : exn) : M A := fun s => Raise e s.

(** The result of a numpy operation, lifted. *)
Definition np {A} (r : exn + A) : M A :=
  match r with inl e => raise_exception e | inr a => ret a end.

Definition log (ev : event) (s : Env) : Env :=
  {| self := self s; world := world s; trace := trace s ++ [ev] |}.

Definition with_world (w : W) (s : Env) : Env :=
  {| self := self s; world := w; trace := trace s |}.

Definition with_self (d : Iterate) (s : Env) : Env :=
  {| self := d; world := world s; trace := trace s |}.

(** [self.run_iteration()] *)
Definition do_run_iteration : M unit := fun s =>
  match run_iteration (world s) with
  | inl e => Raise (Propagated e) (log EvRun s)
  | inr w => Return tt (log EvRun (with_world w s))
  end.

(** [self.loop_end.evaluate()] *)
Definition do_evaluate : M float := fun s =>
  match loop_end_evaluate (world s) with
  | inl e => Raise (Propagated e) s
  | inr v => Return v (log (EvEvaluate v) s)
  end.

(** [self.loop_start.set(v)] *)
Definition do_set (v : float) : M unit := fun s =>
  match loop_start_set v (world s) with
  | inl e => Raise (Propagated e) (log (EvSet v) s)
  | inr w => Return tt (log (EvSet v) (with_world w s))
  end.

(** Reads of [self._stop], [self.current_iteration], [self.max_iteration]
    and [self.tolerance]. *)
Definition get_stop : M bool := fun s => Return (_stop (world s)) s.
Definition get_current_iteration : M Z :=
  fun s => Return (current_iteration (self s)) s.
Definition get_max_iteration : M Z :=
  fun s => Return (max_iteration (self s)) s.
Definition get_tolerance : M float :=
  fun s => Return (tolerance (self s)) s.

(** [self.current_iteration = n] *)
Definition set_current_iteration (n : Z) : M unit := fun s =>
  Return tt (with_self {| max_iteration := max_iteration (self s);
                          tolerance := tolerance (self s);
                          history := history (self s);
                          current_iteration := n |} s).

(** [self.history = h] *)
Definition set_history (h : list float) : M unit := fun s =>
  Return tt (with_self {| max_iteration := max_iteration (self s);
                          tolerance := tolerance (self s);
                          history := h;
                          current_iteration := current_iteration (self s) |} s).

(** ** [Iterate.execute] *)

(** [abs(val1-val0) < self.tolerance] *)
Definition converged (val0 val1 tol : float) : bool :=
  PrimFloat.ltb (PrimFloat.abs (PrimFloat.sub val1 val0)) tol.

(** How one pass through the body of [while unconverged:] ends when it
    does not raise: at the [break], or at the end of the body. *)
Inductive flow := Break | Next.

(** The body of the [while] loop (lines 51 to 73); [history] is the local
    array, returned as the step leaves it. *)
Definition loop_body (history : list float) : M (flow * list float) :=
  stop <- get_stop ;;
  (if stop : bool then raise_exception (RunStopped "Stop requested") else ret tt) ;;
  (* check max iteration *)
  it <- get_current_iteration ;;
  N <- get_max_iteration ;;
  (if it >=? N - 1 then
     it <- get_current_iteration ;;
     set_history (slice_to history (it + 1)) ;;
     raise_exception
       (RuntimeError "Max iterations exceeded without convergence.")
   else ret tt) ;;
  (* Pass output to input *)
  it <- get_current_iteration ;;
  val0 <- np (getitem history it) ;;
  do_set val0 ;;
  (* run the workflow *)
  do_run_iteration ;;
  it <- get_current_iteration ;;
  set_current_iteration (it + 1) ;;
  (* check convergence *)
  v <- do_evaluate ;;
  it <- get_current_iteration ;;
  history <- np (setitem history it v) ;;
  it <- get_current_iteration ;;
  val1 <- np (getitem history it) ;;
  tol <- get_tolerance ;;
  if converged val0 val1 tol then ret (Break, history)
  else ret (Next, history).

(** The statement after the loop (line 78). *)
Definition after_loop (history : list float) : M unit :=
  it <- get_current_iteration ;;
  set_history (slice_to history (it + 1)).

(** [while unconverged: ...] followed by line 78.  [unconverged] is never
    assigned in the loop, which is left by [break] or by an exception
    only.  [fuel] bounds the number of passes. *)
Fixpoint while_unconverged (fuel : nat) (history : list float) : M unit :=
  match fuel with
  | O => fun _ => OutOfFuel
  | S fuel =>
      r <- loop_body history ;;
      match r with
      | (Break, history) => after_loop history
      | (Next, history) => while_unconverged fuel history
      end
  end.

(** Lines 42 to 47: the initial run and the first entry of the array. *)
Definition prologue : M (list float) :=
  (* perform an initial run for self-consistency *)
  do_run_iteration ;;
  set_current_iteration 0 ;;
  N <- get_max_iteration ;;
  history <- np (zeros N) ;;
  v <- do_evaluate ;;
  np (setitem history 0 v).

(** [execute(self)].  Every pass that does not leave the loop adds one to
    [current_iteration], which starts at 0, and the pass that finds
    [current_iteration >= max_iteration - 1] raises: [max_iteration]
    passes are enough. *)
Definition execute : M unit :=
  history <- prologue ;;
  N <- get_max_iteration ;;
  while_unconverged (Z.to_nat N) history.

(** ** What a trace says *)

(** The sink values [loop_end.evaluate()] returned, in order. *)
Definition sink_values (tr : list event) : list float :=
  omap (fun ev => match ev with EvEvaluate v => Some v | _ => None end) tr.

(** The number of workflow runs, and of writes to the feedback source. *)
Definition runs (tr : list event) : nat :=
  length (omap (fun ev => match ev with EvRun => Some tt | _ => None end) tr).
Definition sets (tr : list event) : nat :=
  length (omap (fun ev => match ev with EvSet _ => Some tt | _ => None end) tr).

(** The state one complete pass leaves: [val0] was written to the source,
    the workflow left the world [w], the sink then read [val1]. *)
Definition stepped (s : Env) (val0 : float) (w : W) (val1 : float) : Env :=
  {| self := {| max_iteration := max_iteration (self s);
                tolerance := tolerance (self s);
                history := history (self s);
                current_iteration := current_iteration (self s) + 1 |};
     world := w;
     trace := trace s ++ [EvSet val0; EvRun; EvEvaluate val1] |}.

(** The state line 78 (or line 56) leaves: [self.history] is the prefix of
    the local array up to [current_iteration]. *)
Definition stored (history : list float) (s : Env) : Env :=
  with_self {| max_iteration := max_iteration (self s);
               tolerance := tolerance (self s);
               history := slice_to history (current_iteration (self s) + 1);
               current_iteration := current_iteration (self s) |} s.

(** ** The loop as [execute] runs it *)

(** [loop_state s0 history s]: started in [s0], [execute] is at the head of
    the [while] loop with the local array [history], in state [s]. *)
Inductive loop_state (s0 : Env) : list float -> Env -> Prop :=
| loop_enter history s :
    prologue s0 = Return history s ->
    loop_state s0 history s
| loop_again history s history' s' :
    loop_state s0 history s ->
    loop_body history s = Return (Next, history') s' ->
    loop_state s0 history' s'.

(** What holds at the head of the loop: the traits and [self.history] are
    those of the start, the counter is within the array, and the entries
    of the array up to the counter are the sink values read so far, one
    per workflow run. *)
Definition loop_inv (s0 : Env) (history : list float) (s : Env) : Prop :=
  max_iteration (self s) = max_iteration (self s0) /\
  tolerance (self s) = tolerance (self s0) /\
  Iterate.history (self s) = Iterate.history (self s0) /\
  0 <= current_iteration (self s) < max_iteration (self s) /\
  length history = Z.to_nat (max_iteration (self s)) /\
  exists tr,
    trace s = trace s0 ++ tr /\
    sink_values tr = take (Z.to_nat (current_iteration (self s) + 1)) history /\
    runs tr = Z.to_nat (current_iteration (self s) + 1) /\
    sets tr = Z.to_nat (current_iteration (self s)).

(** What [execute] promises about the state it ends in. *)
Definition execute_post (s0 : Env) (r : outcome unit) : Prop :=
  match r with
  | Return _ s' =>
      1 <= current_iteration (self s') < max_iteration (self s0) /\
      exists tr,
        trace s' = trace s0 ++ tr /\
        history (self s') = sink_values tr /\
        length (history (self s')) = Z.to_nat (current_iteration (self s') + 1)
  | Raise (RuntimeError _) s' =>
      current_iteration (self s') = max_iteration (self s0) - 1 /\
      exists tr,
        trace s' = trace s0 ++ tr /\
        history (self s') = sink_values tr /\
        length (history (self s')) = Z.to_nat (current_iteration (self s') + 1)
  | Raise _ s' => history (self s') = history (self s0)
  | OutOfFuel => False
  end.

End Driver.

Arguments Return {W A} a s.
Arguments Raise {W A} e s.
Arguments OutOfFuel {W A}.

(** ** Feedback loops of one variable

    The smallest worlds the driver can be put in: one source variable, one
    sink variable and the stop flag, with a workflow of one component. *)

Record Loop := mkLoop {
  source : float;
  sink : float;
  stop : bool
}.

Definition expressions (run : Loop -> Loop) : Workflow Loop :=
  {| run_iteration w := inr (run w);
     loop_end_evaluate w := inr (sink w);
     loop_start_set v w := inr {| source := v; sink := sink w; stop := stop w |};
     _stop := stop |}.

(** [sink := source] *)
Definition identity_workflow : Workflow Loop :=
  expressions (fun w => {| source := source w; sink := source w; stop := stop w |}).

(** [sink := 1.0 if source == 0.0 else 0.0]: the sink moves by 1 at each
    run. *)
Definition flip_workflow : Workflow Loop :=
  expressions (fun w =>
    {| source := source w;
       sink := if PrimFloat.eqb (source w) 0 then 1%float else 0%float;
       stop := stop w |}).

(** [sink := source], by a component that also calls [stop()] on the
    driver. *)
Definition stopping_workflow : Workflow Loop :=
  expressions (fun w => {| source := source w; sink := source w; stop := true |}).

(** [sink := source + 7.0], by a component that raises when its input is
    not below 7.0. *)
Definition failing_workflow : Workflow Loop :=
  {| run_iteration w :=
       if PrimFloat.ltb (source w) 7
       then inr {| source := source w;
                   sink := PrimFloat.add (source w) 7;
                   stop := stop w |}
       else inl "ValueError: input out of range";
     loop_end_evaluate w := inr (sink w);
     loop_start_set v w := inr {| source := v; sink := sink w; stop := stop w |};
     _stop := stop |}.

(** A driver as [__init__] leaves it, with the given budget, in a world
    where the source holds [x]. *)
Definition fresh (N : Z) (x y : float) : @Env Loop :=
  {| self := {| max_iteration := N; tolerance := 0.00001%float;
                history := []; current_iteration := 0 |};
     world := {| source := x; sink := y; stop := false |};
     trace := [] |}.

(** The head of the loop that [execute] first reaches from [fresh 25 3 y]
    with the identity workflow. *)
Definition first_head : @Env Loop :=
  {| self := {| max_iteration := 25; tolerance := 0.00001%float;
                history := []; current_iteration := 0 |};
     world := {| source := 3%float; sink := 3%float; stop := false |};
     trace := [EvRun; EvEvaluate 3%float] |}.

Definition first_array : list float := 3%float :: replicate 24 0%float.

(** The state a first, converged, call of [execute] left the driver in:
    [self.history] is [[3.0, 3.0]]. *)
Definition after_first_call : Iterate :=
  {| max_iteration := 25; tolerance := 0.00001%float;
     history := [3%float; 3%float]; current_iteration := 1 |}.

(** A second call, on the same driver, the source now at [x]. *)
Definition second_call (x : float) : @Env Loop :=
  {| self := after_first_call;
     world := {| source := x; sink := 3%float; stop := false |};
     trace := [] |}.

(** The state in which [execute] returns from [fresh 25 3 y] with the
    identity workflow. *)
Definition identity_final : @Env Loop :=
  {| self := after_first_call;
     world := {| source := 3%float; sink := 3%float; stop := false |};
     trace := [EvRun; EvEvaluate 3%float; EvSet 3%float; EvRun; EvEvaluate 3%float] |}.

(** The state in which [execute] raises from [fresh 2 0 0] with the flip
    workflow. *)
Definition flip_final : @Env Loop :=
  {| self := {| max_iteration := 2; tolerance := 0.00001%float;
                history := [1%float; 0%float]; current_iteration := 1 |};
     world := {| source := 1%float; sink := 0%float; stop := false |};
     trace := [EvRun; EvEvaluate 1%float; EvSet 1%float; EvRun; EvEvaluate 0%float] |}.

(** ** Views of a call of [execute] *)

(** The calls that go with the sink values [vs] read after the value
    [prev]: for each, the write of the value before it to the source, a
    run of the workflow, and the read. *)
Fixpoint passes (prev : float) (vs : list float) : list event :=
  match vs with
  | [] => []
  | v :: vs => EvSet prev :: EvRun :: EvEvaluate v :: passes v vs
  end.

(** The calls that go with a history: the initial run and the first
    read, then the passes. *)
Definition calls_of (vs : list float) : list event :=
  match vs with
  | [] => []
  | v :: vs => EvRun :: EvEvaluate v :: passes v vs
  end.

(** Among the first [n] entries of [h], no entry is within [tol] of the
    one before it. *)
Definition unconverged_before (tol : float) (h : list float) (n : nat) : Prop :=
  forall i a b,
    (i + 1 < n)%nat ->
    h !! i = Some a -> h !! (i + 1)%nat = Some b ->
    converged a b tol = false.

Section Views.

Context {W : Type} {wf : Workflow W}.

(** Where [execute], started in [s0], ends: in the lines before the loop,
    at the [break] of a pass, or at the [raise] of a pass. *)
Inductive ends_at (s0 : @Env W) : outcome unit -> Prop :=
| ends_before_loop e s :
    prologue s0 = Raise e s ->
    ends_at s0 (Raise e s)
| ends_at_break history s history' s' :
    loop_state s0 history s ->
    loop_body history s = Return (Break, history') s' ->
    ends_at s0 (Return tt (stored history' s'))
| ends_at_raise history s e s' :
    loop_state s0 history s ->
    loop_body history s = Raise e s' ->
    ends_at s0 (Raise e s').

(** The driver with another record of an earlier call: [self.history]
    and [self.current_iteration] replaced. *)
Definition with_record (h : list float) (it : Z) (s : @Env W) : @Env W :=
  with_self {| max_iteration := max_iteration (self s);
               tolerance := tolerance (self s);
               history := h;
               current_iteration := it |} s.

(** How a pass, and how the loop, end on a driver whose [self.history]
    was [x] instead: in the same way, with [x] in [self.history] unless
    the pass or the loop has assigned it. *)
Definition relabel_pass {A} (x : list float) (r : @outcome W A) : @outcome W A :=
  match r with
  | Return a s => Return a (with_record x (current_iteration (self s)) s)
  | Raise (RuntimeError m) s => Raise (RuntimeError m) s
  | Raise e s => Raise e (with_record x (current_iteration (self s)) s)
  | OutOfFuel => OutOfFuel
  end.

Definition relabel_end (x : list float) (r : @outcome W unit) : @outcome W unit :=
  match r with
  | Return a s => Return a s
  | Raise (RuntimeError m) s => Raise (RuntimeError m) s
  | Raise e s => Raise e (with_record x (current_iteration (self s)) s)
  | OutOfFuel => OutOfFuel
  end.

(** Two calls end alike: both return, in the same state, or both raise
    the same exception, after the same calls and in the same world, and
    in the same state when the exception is the [RuntimeError] of the
    exhausted budget. *)
Definition same_end (a b : @outcome W unit) : Prop :=
  match a, b with
  | Return _ s1, Return _ s2 => s1 = s2
  | Raise e1 s1, Raise e2 s2 =>
      e1 = e2 /\ world s1 = world s2 /\ trace s1 = trace s2 /\
      match e1 with RuntimeError _ => s1 = s2 | _ => True end
  | _, _ => False
  end.

End Views.

End Iterate.

(* ===================================================================== *)
(** * The variable tree                                                   *)
(* ===================================================================== *)

Module VarTree.

(** ** Objects *)

(** A value of an attribute that is not a [VariableTree]. *)
Inductive pyval :=
| PyNone
| PyInt (n : Z)
| PyFloat (x : float)
| PyStr (s : string).

(** What an entry of [__dict__] holds, as [isinstance(v, VariableTree)]
    sees it. *)
Inductive attr (T : Type) :=
| Leaf (v : pyval)
| Tree (t : T).
Arguments Leaf {T} v.
Arguments Tree {T} t.

(** Modelled from the spec: the attribute storage of [Container], which
    is not among the sources.  A [VariableTree] object has a [name], the
    field [_iotype] ([None], or a string such as ['in'] or ['out']), and
    its [__dict__]: the attributes by name, each a [VariableTree] or any
    other value.  [parent] is a back-reference that is not among the
    children (see [Parent] below), and the children form a tree.
    [listening] is the registration of [self._input_trait_modified] with
    [on_trait_change(..., '+')]. *)
Inductive VariableTree :=
| mkVariableTree (name : string) (_iotype : option string) (listening : bool)
                 (__dict__ : list (string * attr VariableTree)).

Definition name (t : VariableTree) : string :=
  match t with mkVariableTree n _ _ _ => n end.
Definition _iotype (t : VariableTree) : option string :=
  match t with mkVariableTree _ io _ _ => io end.
Definition listening (t : VariableTree) : bool :=
  match t with mkVariableTree _ _ l _ => l end.
Definition __dict__ (t : VariableTree) : list (string * attr VariableTree) :=
  match t with mkVariableTree _ _ _ d => d end.

(** The [iotype] property: [return self._iotype]. *)
Definition iotype (t : VariableTree) : option string := _iotype t.

(** Modelled from the spec: [HasTraits.on_trait_change(handler, '+',
    remove=remove)] of the Traits library.  A handler is registered at
    most once: registering it again changes nothing, [remove=True]
    unregisters it, and changes nothing when it is not registered. *)
Definition on_trait_change (remove : bool) (registered : bool) : bool :=
  if remove then false else true.

(** The [iotype] setter (lines 20 to 31).  The loop goes through
    [self.__dict__.items()]; [k] is the name of an attribute, a string,
    and so [k is not self] holds for every item. *)
Fixpoint set_iotype (val : option string) (self : VariableTree) : VariableTree :=
  match self with
  | mkVariableTree n io l d =>
      if decide (val = io) then self
      else
        let remove := if decide (val = Some "in") then false else true in
        mkVariableTree n val (on_trait_change remove l)
          (map (fun kv =>
                  match kv with
                  | (k, Tree v) => (k, Tree (set_iotype val v))
                  | (k, Leaf v) => (k, Leaf v)
                  end) d)
  end.

(** [VariableTree.__init__(iotype)]: [_iotype] is [None], then the setter
    runs.  The node has no attribute and no name yet (the container that
    receives it names it). *)
Definition __init__ (iotype : option string) : VariableTree :=
  set_iotype iotype (mkVariableTree "" None false []).

(** [self.k.iotype = ...] and the like: [f] applied to the child held by
    the attribute [k]. *)
Definition on_child (k : string) (f : VariableTree -> VariableTree)
    (self : VariableTree) : VariableTree :=
  mkVariableTree (name self) (_iotype self) (listening self)
    (map (fun kv =>
            match kv with
            | (k', Tree v) => if decide (k' = k) then (k', Tree (f v)) else kv
            | _ => kv
            end) (__dict__ self)).

(** ** The tree below a node *)

(** The children that are [VariableTree]s. *)
Definition children (t : VariableTree) : list VariableTree :=
  omap (fun kv => match kv.2 with Tree v => Some v | Leaf _ => None end)
       (__dict__ t).

(** The node and all the [VariableTree]s below it. *)
Fixpoint nodes (t : VariableTree) : list VariableTree :=
  match t with
  | mkVariableTree _ _ _ d =>
      t :: flat_map (fun kv => match kv.2 with
                               | Tree v => nodes v
                               | Leaf _ => []
                               end) d
  end.

(** All the [VariableTree]s below a node. *)
Definition descendants (t : VariableTree) : list VariableTree :=
  flat_map nodes (children t).

(** The tree without what the setter writes: names, attribute names and
    the values that are not [VariableTree]s. *)
Fixpoint erase (t : VariableTree) : VariableTree :=
  match t with
  | mkVariableTree n _ _ d =>
      mkVariableTree n None false
        (map (fun kv =>
                match kv with
                | (k, Tree v) => (k, Tree (erase v))
                | (k, Leaf v) => (k, Leaf v)
                end) d)
  end.

(** The hook is registered exactly when the direction is ['in']. *)
Definition hook_ok (t : VariableTree) : Prop :=
  listening t = true <-> _iotype t = Some "in".

(** ** What is above a node *)

(** A trait of a container, as [tree_rooted] reads it: its [iotype]
    metadata. *)
Record CTrait := { trait_iotype : option string }.

(** Modelled from the spec: a container that is not a [VariableTree] (a
    component), of which this file uses [trait(name)], the trait of that
    name or [None] ("field direction lookup"), and the method
    [_input_trait_modified], which it is called with. *)
Record Component := {
  pathname : string;
  trait : string -> option CTrait
}.

(** Modelled from the spec: [Container.parent], a back-reference that is
    [None], a [VariableTree] (which has a parent of its own), or another
    container. *)
Inductive Parent :=
| ParentNone
| ParentTree (p : VariableTree) (grandparent : Parent)
| ParentOther (c : Component).

(** Python's truth value of [t.iotype]: [None] and the empty string are
    false. *)
Definition truthy (v : option string) : bool :=
  match v with
  | None => false
  | Some s => if decide (s = "") then false else true
  end.

Section TreeRooted.

(** Modelled from the spec: [Container.tree_rooted], which
    [VariableTree.tree_rooted] ends with and which is not among the
    sources; it is taken as it comes. *)
Variable Container_tree_rooted : VariableTree -> VariableTree.

(** [tree_rooted(self)] (lines 34 to 42). *)
Definition tree_rooted (parent : Parent) (self : VariableTree) : VariableTree :=
  Container_tree_rooted
    match parent with
    | ParentNone => self
    | ParentTree p _ => set_iotype (iotype p) self
    | ParentOther c =>
        match trait c (name self) with
        | Some t => if truthy (trait_iotype t)
                    then set_iotype (trait_iotype t) self
                    else self
        | None => self
        end
    end.

End TreeRooted.

(** ** Notification *)

(** A call [p._input_trait_modified(p, name, old, new)] on the container
    [p] that owns the tree. *)
Inductive call :=
| InputTraitModified (p : Component) (name : string) (old new : VariableTree).

(** The loop of lines 48 to 50: from [vt], whose parent is [p], up to
    the last [VariableTree] and to its parent, which is not one. *)
Fixpoint climb (vt : VariableTree) (p : Parent) : VariableTree * Parent :=
  match p with
  | ParentTree p' grandparent => climb p' grandparent
  | _ => (vt, p)
  end.

(** [_input_trait_modified(self, obj, name, old, new)] (lines 44 to 52):
    the calls it makes. *)
Definition _input_trait_modified (self : VariableTree) (parent : Parent)
    (name_ : string) : list call :=
  if String.prefix "_" name_ then []
  else
    match climb self parent with
    | (vt, ParentOther p) => [InputTraitModified p (name vt) vt vt]
    | _ => []
    end.

(** Modelled from the spec: the dispatch of the Traits library.  When
    the attribute [name_] of [self] changes, the handler runs once if it
    is registered, and not at all if it is not. *)
Definition attribute_changed (self : VariableTree) (parent : Parent)
    (name_ : string) : list call :=
  if listening self then _input_trait_modified self parent name_ else [].

(** ** Predicates and views used in the statements *)

(** What holds of the [VariableTree] an attribute holds, if it holds
    one. *)
Definition on_tree (P : VariableTree -> Prop)
    (kv : string * attr VariableTree) : Prop :=
  match kv.2 with Tree v => P v | Leaf _ => True end.

(** The entry of [__dict__] the loop of the setter leaves. *)
Definition cascade (val : option string) (kv : string * attr VariableTree) :
    string * attr VariableTree :=
  match kv with
  | (k, Tree v) => (k, Tree (set_iotype val v))
  | (k, Leaf v) => (k, Leaf v)
  end.

(** A node that carries the direction [val], with the hook as the setter
    leaves it for [val]. *)
Definition carries (val : option string) (t : VariableTree) : Prop :=
  _iotype t = val /\
  listening t = (if decide (val = Some "in") then true else false).


(** The last [VariableTree] on the way up from a node. *)
Fixpoint root_most (self : VariableTree) (parent : Parent) : VariableTree :=
  match parent with
  | ParentTree p grandparent => root_most p grandparent
  | _ => self
  end.

(** The container that holds the tree, if one does. *)
Fixpoint owner (parent : Parent) : option Component :=
  match parent with
  | ParentNone => None
  | ParentTree _ grandparent => owner grandparent
  | ParentOther c => Some c
  end.

(** The parent of a node below the [VariableTree]s [ps], nearest first,
    the last of which has the parent [top]. *)
Definition chain (ps : list VariableTree) (top : Parent) : Parent :=
  foldr ParentTree top ps.

(** ** Trees used below *)

(** [t.c.g], every node with the direction [io] and the hook as
    [__init__] and the setter leave it; [c] also holds a number. *)
Definition uniform (io : option string) : VariableTree :=
  let l := if decide (io = Some "in") then true else false in
  mkVariableTree "t" io l
    [("c", Tree (mkVariableTree "c" io l
                   [("x", Leaf (PyInt 1));
                    ("g", Tree (mkVariableTree "g" io l []))]))].

(** After [t.c.iotype = 'in'] and then [t.c.g.iotype = 'out'] on the tree
    that was ['out'] throughout. *)
Definition mixed : VariableTree :=
  on_child "c" (on_child "g" (set_iotype (Some "out")))
    (on_child "c" (set_iotype (Some "in")) (uniform (Some "out"))).

(** A component with an input trait [t] and an output trait [u]. *)
Definition component : Component :=
  {| pathname := "comp";
     trait n := if decide (n = "t") then Some {| trait_iotype := Some "in" |}
                else if decide (n = "u") then Some {| trait_iotype := Some "out" |}
                else None |}.

(** ** [get_iotype] *)

Section GetIotype.

(** Modelled from the spec: [Container.get_trait(name)], the trait of
    that name of the node or [None], which is not among the sources. *)
Variable get_trait : VariableTree -> string -> option CTrait.

(** [get_iotype(self, name)] (lines 54 to 59): the message of the
    exception [raise_exception] raises, or the direction. *)
Definition get_iotype (self : VariableTree) (name_ : string) :
    string + option string :=
  match get_trait self name_ with
  | None => inl ("'" ++ name_ ++ "' not found")%string
  | Some _ => inr (iotype self)
  end.

End GetIotype.

End VarTree.

(* ===================================================================== *)
(** * Page elements                                                       *)
(* ===================================================================== *)

Module Elements.

(** ** Element objects *)

(** A WebDriver locator: how to look, and for what. *)
Definition locator : Type := string * string.

(** The classes of element objects. *)
Inductive element_class :=
| _ButtonElement
| _CheckboxElement
| _GridElement
| _InputElement
| _TextElement.

Section Descriptor.

(** Modelled from the spec: the page objects ([BasePageObject] is not
    among the sources), which are keys of a dictionary and have the
    attributes [browser] and [root]; [Driver] and [WebElement] are
    Selenium's. *)
Context {Page : Type} `{Countable Page}.
Context {Driver WebElement : Type}.
Variable browser : Page -> Driver.
Variable root : Page -> option WebElement.

(** An element object, as [_BaseElement.__init__] leaves it (the
    [__init__] of the five classes only call it). *)
Record Element := mkElement {
  element_cls : element_class;
  _browser : Driver;
  element_locator : locator;
  _root : option WebElement
}.

(** [cls(page, locator)] *)
Definition new_element (cls : element_class) (page : Page) (loc : locator) :
    Element :=
  {| element_cls := cls;
     _browser := browser page;
     element_locator := loc;
     _root := root page |}.

(** ** The descriptor *)

Record BaseElement := mkBaseElement {
  _cls : element_class;
  _locator : locator;
  _elements : gmap Page Element
}.

(** [BaseElement.__init__(cls, locator)] *)
Definition __init__ (cls : element_class) (loc : locator) : BaseElement :=
  {| _cls := cls; _locator := loc; _elements := ∅ |}.

(** [BaseElement.get(page)] (lines 201 to 207): the element, and the
    descriptor as the call leaves it. *)
Definition get (self : BaseElement) (page : Page) : Element * BaseElement :=
  match _elements self !! page with
  | Some element => (element, self)
  | None =>
      let element := new_element (_cls self) page (_locator self) in
      (element,
       {| _cls := _cls self;
          _locator := _locator self;
          _elements := <[page := element]> (_elements self) |})
  end.

(** Every element of the dictionary is the one [get] makes for its
    page. *)
Definition cache_ok (d : BaseElement) : Prop :=
  forall page element,
    _elements d !! page = Some element ->
    element = new_element (_cls d) page (_locator d).

(** The descriptor after [get] for each of the pages, in order. *)
Definition gets (self : BaseElement) (pages : list Page) : BaseElement :=
  foldl (fun d page => (get d page).2) self pages.

End Descriptor.

(** [ButtonElement(locator)] and the like (lines 210 to 233). *)
Definition ButtonElement {Page} `{Countable Page} {Driver WebElement}
    (loc : locator) : @BaseElement Page _ _ Driver WebElement :=
  __init__ _ButtonElement loc.
Definition CheckboxElement {Page} `{Countable Page} {Driver WebElement}
    (loc : locator) : @BaseElement Page _ _ Driver WebElement :=
  __init__ _CheckboxElement loc.
Definition GridElement {Page} `{Countable Page} {Driver WebElement}
    (loc : locator) : @BaseElement Page _ _ Driver WebElement :=
  __init__ _GridElement loc.
Definition InputElement {Page} `{Countable Page} {Driver WebElement}
    (loc : locator) : @BaseElement Page _ _ Driver WebElement :=
  __init__ _InputElement loc.
Definition TextElement {Page} `{Countable Page} {Driver WebElement}
    (loc : locator) : @BaseElement Page _ _ Driver WebElement :=
  __init__ _TextElement loc.

(** ** The text input *)

(** The exceptions the setters of this file end with: Selenium's, the
    [NameError] of Python for a global name that is not defined, and any
    other. *)
Inductive exn :=
| TimeoutException
| NoSuchElementException
| ElementNotVisibleException
| StaleElementReferenceException
| NameError (name : string)
| OtherException (what : string).

(** How a setter ends, and the state of the browser it leaves. *)
Inductive ended (B : Type) :=
| Returned (b : B)
| Raised (e : exn) (b : B).
Arguments Returned {B} b.
Arguments Raised {B} e b.

(** What the setters ask of Selenium, on a browser in the state [B] and
    an element [E] of the page: [self.element] (the element found within
    the time-out, or an exception), the two waits
    [WebDriverWait(...).until(...)] for [is_displayed()] and
    [is_enabled()], [get_attribute('value')], [clear()] and
    [send_keys(...)], which may leave the browser in another state
    whether it raises or not. *)
Class WebDriver (B E : Type) := {
  element : B -> exn + E;
  wait_displayed : E -> B -> option exn;
  wait_enabled : E -> B -> option exn;
  get_attribute_value : E -> B -> exn + option string;
  clear : E -> B -> exn + B;
  send_keys : E -> list string -> B -> option exn * B
}.

Section Input.

Context {B E : Type} {driver : WebDriver B E}.

(** The truth value of [element.get_attribute('value')]. *)
Definition has_text (v : option string) : bool :=
  match v with
  | None => false
  | Some s => if decide (s = "") then false else true
  end.

(** Lines 126 to 133, and 149 to 156: the element, displayed, enabled
    and empty. *)
Definition prepare (b : B) : exn * B + E * B :=
  match element b with
  | inl e => inl (e, b)
  | inr el =>
      match wait_displayed el b with
      | Some e => inl (e, b)
      | None =>
          match wait_enabled el b with
          | Some e => inl (e, b)
          | None =>
              match get_attribute_value el b with
              | inl e => inl (e, b)
              | inr v =>
                  if has_text v then
                    match clear el b with
                    | inl e => inl (e, b)
                    | inr b' => inr (el, b')
                    end
                  else inr (el, b)
              end
          end
      end
  end.

(** [logging.warning(...)] at line 140, with the exception it raises if
    it does: the module does not import [logging] and binds the name
    nowhere, so the look-up of the name raises [NameError]. *)
Definition logging_warning : option exn := Some (NameError "logging").

(** The loop [for retry in range(3)] of lines 134 to 143, over the
    values of [retry] that are left. *)
Fixpoint send_keys_loop (el : E) (new_value : string) (retries : list nat)
    (b : B) : ended B :=
  match retries with
  | [] => Returned b
  | retry :: retries =>
      match send_keys el [new_value] b with
      | (None, b') => Returned b'
      | (Some StaleElementReferenceException, b') =>
          if (retry <? 2)%nat then
            match logging_warning with
            | Some e => Raised e b'
            | None => send_keys_loop el new_value retries b'
            end
          else Raised StaleElementReferenceException b'
      | (Some e, b') => Raised e b'
      end
  end.

(** The setter of [_InputElement.value] (lines 124 to 143). *)
Definition set_value (new_value : string) (b : B) : ended B :=
  match prepare b with
  | inl (e, b') => Raised e b'
  | inr (el, b') => send_keys_loop el new_value (seq 0 3) b'
  end.

(** [_InputElement.set_values], called with [values] (lines 145 to
    157). *)
Definition set_values (values : list string) (b : B) : ended B :=
  match prepare b with
  | inl (e, b') => Raised e b'
  | inr (el, b') =>
      match send_keys el values b' with
      | (None, b'') => Returned b''
      | (Some e, b'') => Raised e b''
      end
  end.

End Input.

End Elements.

(* ===================================================================== *)
(** * Properties of the iteration driver                                  *)
(* ===================================================================== *)

Module IterateProofs.
Import Iterate.

Section Driver.

Context {W : Type} {wf : Workflow W}.

(** ** Arrays *)

Lemma index_in_range len i :
  0 <= i < len -> index len i = inr (Z.to_nat i).
Proof.
  intros Hi. unfold index.
  replace (0 <=? i) with true by (symmetry; apply Z.leb_le; lia).
  replace (i <? len) with true by (symmetry; apply Z.ltb_lt; lia).
  reflexivity.
Qed.

Lemma getitem_in_range (a : list float) i v :
  0 <= i -> a !! Z.to_nat i = Some v -> getitem a i = inr v.
Proof.
  intros Hi Hv. unfold getitem.
  pose proof (lookup_lt_Some _ _ _ Hv) as Hlt.
  rewrite index_in_range by lia. rewrite Hv. reflexivity.
Qed.

Lemma setitem_in_range (a : list float) i v :
  0 <= i < Z.of_nat (length a) ->
  setitem a i v = inr (<[Z.to_nat i := v]> a).
Proof. intros Hi. unfold setitem. rewrite index_in_range by lia. reflexivity. Qed.

Lemma slice_to_nonneg (a : list float) k :
  0 <= k -> slice_to a k = take (Z.to_nat k) a.
Proof.
  intros Hk. unfold slice_to.
  replace (k <? 0) with false by (symmetry; apply Z.ltb_ge; lia).
  reflexivity.
Qed.

(** ** One pass through the loop *)

Lemma loop_body_stop history (s : @Env W) :
  _stop (world s) = true ->
  loop_body history s = Raise (RunStopped "Stop requested") s.
Proof.
  intros Hstop. unfold loop_body, bind, get_stop. rewrite Hstop. reflexivity.
Qed.

Lemma loop_body_max history (s : @Env W) :
  _stop (world s) = false ->
  max_iteration (self s) - 1 <= current_iteration (self s) ->
  loop_body history s =
  Raise (RuntimeError "Max iterations exceeded without convergence.")
        (stored history s).
Proof.
  intros Hstop Hmax.
  unfold loop_body, bind, get_stop, get_current_iteration, get_max_iteration.
  rewrite Hstop. cbn.
  replace (_ >=? _) with true by (symmetry; apply Z.geb_le; lia).
  reflexivity.
Qed.

Lemma loop_body_ok history (s : @Env W) val0 w1 w2 val1 :
  _stop (world s) = false ->
  0 <= current_iteration (self s) < max_iteration (self s) - 1 ->
  length history = Z.to_nat (max_iteration (self s)) ->
  history !! Z.to_nat (current_iteration (self s)) = Some val0 ->
  loop_start_set val0 (world s) = inr w1 ->
  run_iteration w1 = inr w2 ->
  loop_end_evaluate w2 = inr val1 ->
  loop_body history s =
  Return (if converged val0 val1 (tolerance (self s)) then Break else Next,
          <[Z.to_nat (current_iteration (self s) + 1) := val1]> history)
         (stepped s val0 w2 val1).
Proof.
  intros Hstop Hit Hlen Hval0 Hset Hrun Heval.
  unfold loop_body, bind, get_stop, get_current_iteration, get_max_iteration.
  rewrite Hstop. cbn.
  destruct (_ >=? _) eqn:Hge; [apply Z.geb_le in Hge; lia|]. cbn.
  rewrite (getitem_in_range _ _ val0) by (lia || assumption). cbn.
  unfold do_set. cbn. rewrite Hset. cbn.
  unfold do_run_iteration. cbn. rewrite Hrun. cbn.
  unfold do_evaluate. cbn. rewrite Heval. cbn.
  rewrite setitem_in_range by lia. cbn.
  rewrite (getitem_in_range _ _ val1); cycle 1.
  { lia. }
  { apply list_lookup_insert_eq. lia. }
  cbn. unfold stepped, log, with_world, with_self. cbn.
  rewrite <- !app_assoc. cbn.
  destruct (PrimFloat.ltb _ _); reflexivity.
Qed.

(** The loop, one pass unfolded. *)
Lemma while_unconverged_S fuel history (s : @Env W) :
  while_unconverged (S fuel) history s =
  match loop_body history s with
  | Return (Break, history') s' => Return tt (stored history' s')
  | Return (Next, history') s' => while_unconverged fuel history' s'
  | Raise e s' => Raise e s'
  | OutOfFuel => OutOfFuel
  end.
Proof.
  change (while_unconverged (S fuel) history s) with
    (bind (loop_body history)
          (fun r => match r with
                    | (Break, h) => after_loop h
                    | (Next, h) => while_unconverged fuel h
                    end) s).
  unfold bind. destruct (loop_body history s) as [[[] h'] s'| |]; reflexivity.
Qed.

(** Every way a pass can end, for an array as long as [max_iteration]
    says and a counter that is not negative. *)
Lemma loop_body_inv history (s : @Env W) :
  0 <= current_iteration (self s) ->
  length history = Z.to_nat (max_iteration (self s)) ->
  match loop_body history s with
  | Return (fl, history') s' =>
      exists val0 w1 w2 val1,
        _stop (world s) = false /\
        current_iteration (self s) < max_iteration (self s) - 1 /\
        history !! Z.to_nat (current_iteration (self s)) = Some val0 /\
        loop_start_set val0 (world s) = inr w1 /\
        run_iteration w1 = inr w2 /\
        loop_end_evaluate w2 = inr val1 /\
        fl = (if converged val0 val1 (tolerance (self s)) then Break else Next) /\
        history' = <[Z.to_nat (current_iteration (self s) + 1) := val1]> history /\
        s' = stepped s val0 w2 val1
  | Raise e s' =>
      (e = RunStopped "Stop requested" /\ _stop (world s) = true /\ s' = s) \/
      (e = RuntimeError "Max iterations exceeded without convergence." /\
       _stop (world s) = false /\
       max_iteration (self s) - 1 <= current_iteration (self s) /\
       s' = stored history s) \/
      (exists what, e = Propagated what /\
       _stop (world s) = false /\
       current_iteration (self s) < max_iteration (self s) - 1 /\
       Iterate.history (self s') = Iterate.history (self s))
  | OutOfFuel => False
  end.
Proof.
  intros Hit Hlen.
  destruct (_stop (world s)) eqn:Hstop.
  { rewrite loop_body_stop by assumption. left. auto. }
  destruct (Z_le_gt_dec (max_iteration (self s) - 1) (current_iteration (self s)))
    as [Hmax|Hmax].
  { rewrite loop_body_max by assumption. right. left. auto. }
  destruct (lookup_lt_is_Some_2 history (Z.to_nat (current_iteration (self s))))
    as [val0 Hval0]; [lia|].
  destruct (loop_start_set val0 (world s)) as [e|w1] eqn:Hset.
  { unfold loop_body, bind, get_stop, get_current_iteration, get_max_iteration.
    rewrite Hstop. cbn.
    destruct (_ >=? _) eqn:Hge; [apply Z.geb_le in Hge; lia|]. cbn.
    rewrite (getitem_in_range _ _ val0) by (lia || assumption). cbn.
    unfold do_set. rewrite Hset. right. right. exists e. repeat split; auto. lia. }
  destruct (run_iteration w1) as [e|w2] eqn:Hrun.
  { unfold loop_body, bind, get_stop, get_current_iteration, get_max_iteration.
    rewrite Hstop. cbn.
    destruct (_ >=? _) eqn:Hge; [apply Z.geb_le in Hge; lia|]. cbn.
    rewrite (getitem_in_range _ _ val0) by (lia || assumption). cbn.
    unfold do_set. rewrite Hset. cbn.
    unfold do_run_iteration. cbn. rewrite Hrun.
    right. right. exists e. repeat split; auto. lia. }
  destruct (loop_end_evaluate w2) as [e|val1] eqn:Heval.
  { unfold loop_body, bind, get_stop, get_current_iteration, get_max_iteration.
    rewrite Hstop. cbn.
    destruct (_ >=? _) eqn:Hge; [apply Z.geb_le in Hge; lia|]. cbn.
    rewrite (getitem_in_range _ _ val0) by (lia || assumption). cbn.
    unfold do_set. rewrite Hset. cbn.
    unfold do_run_iteration. cbn. rewrite Hrun. cbn.
    unfold do_evaluate. cbn. rewrite Heval.
    right. right. exists e. repeat split; auto. lia. }
  rewrite (loop_body_ok history s val0 w1 w2 val1) by (assumption || lia).
  exists val0, w1, w2, val1. repeat split; auto. lia.
Qed.

Lemma prologue_inv (s0 : @Env W) :
  match prologue s0 with
  | Return history s =>
      current_iteration (self s) = 0 /\
      (exists w0 v, run_iteration (world s0) = inr w0 /\ world s = w0 /\
                    loop_end_evaluate w0 = inr v /\ history !! 0%nat = Some v) /\
      loop_inv s0 history s
  | Raise e s => history (self s) = history (self s0) /\
                 forall msg, e <> RuntimeError msg
  | OutOfFuel => False
  end.
Proof.
  unfold prologue, bind, do_run_iteration.
  destruct (run_iteration (world s0)) as [e|w0] eqn:Hrun; [split; [reflexivity|discriminate]|].
  cbn. unfold zeros.
  destruct (Z.ltb_spec (max_iteration (self s0)) 0) as [Hneg|Hneg];
    [split; [reflexivity|discriminate]|].
  cbn. unfold do_evaluate. cbn.
  destruct (loop_end_evaluate w0) as [e|v] eqn:Heval; [split; [reflexivity|discriminate]|].
  cbn. unfold setitem. rewrite length_replicate.
  destruct (Z.eq_dec (max_iteration (self s0)) 0) as [Hz|Hz].
  { rewrite Hz. cbn. split; [reflexivity|discriminate]. }
  rewrite index_in_range by lia. cbn.
  assert (Hlt : (0 < Z.to_nat (max_iteration (self s0)))%nat) by lia.
  split; [reflexivity|]. split.
  { exists w0, v. repeat split; auto.
    apply list_lookup_insert_eq. rewrite length_replicate. lia. }
  unfold loop_inv. cbn.
  repeat split; try reflexivity; try lia.
  { rewrite length_insert, length_replicate. reflexivity. }
  exists [EvRun; EvEvaluate v]. repeat split.
  { rewrite <- app_assoc. reflexivity. }
  destruct (Z.to_nat (max_iteration (self s0))); [lia|]. reflexivity.
Qed.

Lemma loop_inv_stepped (s0 : @Env W) history s val0 w val1 :
  loop_inv s0 history s ->
  current_iteration (self s) < max_iteration (self s) - 1 ->
  loop_inv s0 (<[Z.to_nat (current_iteration (self s) + 1) := val1]> history)
           (stepped s val0 w val1).
Proof.
  intros (HN & Htol & Hh & Hit & Hlen & tr & Htr & Hsink & Hruns & Hsets) Hlt.
  unfold loop_inv. cbn.
  repeat split; try assumption; try lia.
  { rewrite length_insert. assumption. }
  exists (tr ++ [EvSet val0; EvRun; EvEvaluate val1]).
  repeat split.
  - rewrite Htr, app_assoc. reflexivity.
  - unfold sink_values in *. rewrite omap_app, Hsink. cbn.
    replace (Z.to_nat (current_iteration (self s) + 1 + 1))
      with (S (Z.to_nat (current_iteration (self s) + 1))) by lia.
    rewrite (take_S_r _ _ val1) by (apply list_lookup_insert_eq; lia).
    rewrite take_insert_ge by lia. reflexivity.
  - unfold runs in *. rewrite omap_app, length_app, Hruns. cbn. lia.
  - unfold sets in *. rewrite omap_app, length_app, Hsets. cbn. lia.
Qed.

(** The invariant holds at every head of the loop. *)
Lemma loop_state_inv (s0 : @Env W) history s :
  loop_state s0 history s -> loop_inv s0 history s.
Proof.
  induction 1 as [history s Hpro | history s history' s' _ IH Hbody].
  - pose proof (prologue_inv s0) as Hp. rewrite Hpro in Hp. apply Hp.
  - pose proof IH as (_ & _ & _ & Hit & Hlen & _).
    pose proof (loop_body_inv history s ltac:(lia) Hlen) as Hb.
    rewrite Hbody in Hb.
    destruct Hb as (val0 & w1 & w2 & val1 & _ & Hlt & _ & _ & _ & _ & _ & -> & ->).
    apply loop_inv_stepped; assumption.
Qed.

(** The loop keeps the promise of [execute], with enough fuel for the
    passes that are left. *)
Lemma while_unconverged_post (s0 : @Env W) fuel : forall history s,
  loop_inv s0 history s ->
  (Z.to_nat (max_iteration (self s) - current_iteration (self s)) <= fuel)%nat ->
  execute_post s0 (while_unconverged fuel history s).
Proof.
  induction fuel as [|fuel IH]; intros history s Hinv Hfuel.
  { destruct Hinv as (_ & _ & _ & Hit & _). lia. }
  pose proof Hinv as (HN & Htol & Hh & Hit & Hlen & tr & Htr & Hsink & Hruns & Hsets).
  rewrite while_unconverged_S.
  pose proof (loop_body_inv history s ltac:(lia) Hlen) as Hb.
  destruct (loop_body history s) as [[fl history'] s'|e s'|]; [| |contradiction].
  - destruct Hb as (val0 & w1 & w2 & val1 & _ & Hlt & _ & _ & _ & _ & Hfl & -> & ->).
    pose proof (loop_inv_stepped s0 history s val0 w2 val1 Hinv Hlt) as Hinv'.
    destruct fl.
    + destruct Hinv' as (HN' & _ & _ & Hit' & Hlen' & tr' & Htr' & Hsink' & _).
      cbn in *. split; [lia|]. exists tr'. split; [assumption|].
      rewrite slice_to_nonneg by lia. split; [symmetry; assumption|].
      rewrite length_take_le; lia.
    + apply IH; [assumption|]. cbn. lia.
  - destruct Hb as [(-> & _ & ->)|[(-> & _ & Hmax & ->)|(what & -> & _ & _ & Hh')]].
    + cbn. assumption.
    + cbn. split; [lia|]. exists tr. split; [assumption|].
      rewrite slice_to_nonneg by lia. split; [symmetry; assumption|].
      rewrite length_take_le; lia.
    + cbn. congruence.
Qed.

(** [execute] always ends, by returning or by raising, and in either case
    as [execute_post] says. *)
Lemma execute_total (s0 : @Env W) : execute_post s0 (execute s0).
Proof.
  unfold execute, bind at 1.
  pose proof (prologue_inv s0) as Hp.
  destruct (prologue s0) as [history s|e s|]; [| |contradiction].
  - destruct Hp as (Hz & _ & Hinv). cbn.
    apply while_unconverged_post; [assumption|].
    destruct Hinv as (HN & _). rewrite Hz. lia.
  - destruct Hp as (Hh & Hne). cbn. destruct e; try assumption.
    exfalso. eapply Hne. reflexivity.
Qed.

(** A workflow that never fails, never asks to stop, and whose sink moves
    by at least the tolerance from one run to the next, on the worlds that
    satisfy [I], exhausts the budget: the loop ends at line 57, at the head
    that finds the counter at [max_iteration - 1]. *)
Lemma while_unconverged_exhausts (I : W -> Prop) (s0 : @Env W) :
  (forall w, I w -> _stop w = false) ->
  (forall w, I w -> exists val0 w1 w2 val1,
      loop_end_evaluate w = inr val0 /\
      loop_start_set val0 w = inr w1 /\
      run_iteration w1 = inr w2 /\ I w2 /\
      loop_end_evaluate w2 = inr val1 /\
      converged val0 val1 (tolerance (self s0)) = false) ->
  forall fuel history s v,
    loop_inv s0 history s ->
    I (world s) ->
    history !! Z.to_nat (current_iteration (self s)) = Some v ->
    loop_end_evaluate (world s) = inr v ->
    (Z.to_nat (max_iteration (self s) - current_iteration (self s)) <= fuel)%nat ->
    exists history' s',
      while_unconverged fuel history s =
      Raise (RuntimeError "Max iterations exceeded without convergence.")
            (stored history' s') /\
      loop_inv s0 history' s' /\
      current_iteration (self s') = max_iteration (self s0) - 1.
Proof.
  intros Hstop Hmove.
  induction fuel as [|fuel IH]; intros history s v Hinv HI Hv Heval Hfuel.
  { destruct Hinv as (_ & _ & _ & Hit & _). lia. }
  pose proof Hinv as (HN & Htol & _ & Hit & Hlen & _).
  rewrite while_unconverged_S.
  destruct (Z_le_gt_dec (max_iteration (self s) - 1) (current_iteration (self s)))
    as [Hmax|Hmax].
  { rewrite loop_body_max by auto.
    exists history, s. repeat split; try apply Hinv. lia. }
  destruct (Hmove _ HI) as (val0 & w1 & w2 & val1 & Hev0 & Hset & Hrun & HI2 & Hev1 & Hconv).
  assert (val0 = v) as -> by congruence.
  rewrite (loop_body_ok history s v w1 w2 val1) by (auto || lia).
  rewrite Htol, Hconv.
  eapply (IH _ _ val1).
  - apply loop_inv_stepped; [assumption|lia].
  - exact HI2.
  - cbn. apply list_lookup_insert_eq. lia.
  - exact Hev1.
  - cbn. lia.
Qed.

(** At a head of the loop, what is left of [execute] is the loop from
    there, with enough fuel for the passes that are left. *)
Lemma execute_at_head (s0 : @Env W) history s :
  loop_state s0 history s ->
  exists fuel,
    (Z.to_nat (max_iteration (self s) - current_iteration (self s)) <= fuel)%nat /\
    execute s0 = while_unconverged fuel history s.
Proof.
  induction 1 as [history s Hpro | history s history' s' Hstate IH Hbody].
  - exists (Z.to_nat (max_iteration (self s))). split.
    + pose proof (prologue_inv s0) as Hp. rewrite Hpro in Hp.
      destruct Hp as (Hz & _). rewrite Hz. lia.
    + unfold execute, bind at 1. rewrite Hpro. reflexivity.
  - destruct IH as (fuel & Hfuel & Hex).
    pose proof (loop_state_inv _ _ _ Hstate) as (_ & _ & _ & Hit & Hlen & _).
    pose proof (loop_body_inv history s ltac:(lia) Hlen) as Hb.
    rewrite Hbody in Hb.
    destruct Hb as (val0 & w1 & w2 & val1 & _ & Hlt & _ & _ & _ & _ & _ & _ & ->).
    destruct fuel as [|fuel]; [lia|].
    exists fuel. split; [cbn; lia|].
    rewrite Hex, while_unconverged_S, Hbody. reflexivity.
Qed.

(** ** What [execute] does *)

(** C1. At every head of the loop that [execute] reaches, with no stop
    requested and the budget not exhausted, where [val0] is
    [history[current_iteration]], the write of [val0] to the source and
    the workflow run succeed, and the sink then reads [val1]: the array
    holds [val1] at [current_iteration + 1]; the pass ends at the [break]
    if and only if [abs(val1 - val0) < tolerance] (strict), and then
    the loop is left and [execute] returns, with the counter one more
    than before the pass and [self.history] of exactly
    [current_iteration + 1] entries, the sink values read since [execute]
    began; otherwise the loop goes on to its next pass. *)
Theorem C1_break_iff_below_tolerance (s0 : @Env W) history s val0 w1 w2 val1 :
  loop_state s0 history s ->
  _stop (world s) = false ->
  current_iteration (self s) < max_iteration (self s) - 1 ->
  history !! Z.to_nat (current_iteration (self s)) = Some val0 ->
  loop_start_set val0 (world s) = inr w1 ->
  run_iteration w1 = inr w2 ->
  loop_end_evaluate w2 = inr val1 ->
  let below :=
    PrimFloat.ltb (PrimFloat.abs (PrimFloat.sub val1 val0)) (tolerance (self s)) in
  let history' := <[Z.to_nat (current_iteration (self s) + 1) := val1]> history in
  let s' := stepped s val0 w2 val1 in
  let final := stored history' s' in
  history' !! Z.to_nat (current_iteration (self s) + 1) = Some val1 /\
  (exists fl, loop_body history s = Return (fl, history') s' /\
              (fl = Break <-> below = true)) /\
  (forall fuel,
      while_unconverged (S fuel) history s =
      if below then Return tt final else while_unconverged fuel history' s') /\
  (below = true -> execute s0 = Return tt final) /\
  (below = false -> loop_state s0 history' s') /\
  current_iteration (self final) = current_iteration (self s) + 1 /\
  length (Iterate.history (self final)) =
    Z.to_nat (current_iteration (self final) + 1) /\
  exists tr, trace final = trace s0 ++ tr /\
             Iterate.history (self final) = sink_values tr.
Proof.
  intros Hstate Hstop Hlt Hval0 Hset Hrun Heval below history' s' final.
  pose proof (loop_state_inv _ _ _ Hstate) as Hinv.
  pose proof Hinv as (_ & _ & _ & Hit & Hlen & _).
  pose proof (loop_body_ok history s val0 w1 w2 val1 Hstop ltac:(lia)
                Hlen Hval0 Hset Hrun Heval) as Hbody.
  fold history' s' in Hbody. unfold converged in Hbody. fold below in Hbody.
  pose proof (loop_inv_stepped s0 history s val0 w2 val1 Hinv Hlt) as Hinv'.
  fold history' s' in Hinv'.
  destruct Hinv' as (_ & _ & _ & Hit' & Hlen' & tr' & Htr' & Hsink' & _).
  split; [apply list_lookup_insert_eq; lia|].
  split.
  { exists (if below then Break else Next). split; [exact Hbody|].
    destruct below; split; congruence. }
  split.
  { intros fuel. rewrite while_unconverged_S, Hbody. destruct below; reflexivity. }
  split.
  { intros Hbelow. destruct (execute_at_head _ _ _ Hstate) as (fuel & Hfuel & ->).
    destruct fuel as [|fuel]; [lia|].
    rewrite while_unconverged_S, Hbody, Hbelow. reflexivity. }
  split.
  { intros Hbelow. apply (loop_again s0 history s); [exact Hstate|].
    rewrite Hbody, Hbelow. reflexivity. }
  split; [reflexivity|].
  unfold final, stored. cbn in *.
  rewrite slice_to_nonneg by lia.
  split; [rewrite length_take_le; lia|].
  exists tr'. split; [assumption|]. symmetry. assumption.
Qed.

(** C2 (amended). With [max_iteration = N >= 1] and a workflow that never
    fails, never asks to stop, and whose successive sink values never
    differ by less than the tolerance, [execute] raises the [RuntimeError]
    of line 57 with [current_iteration = N - 1]: after the initial run and
    [N - 1] passes, each with one write to the source and one workflow
    run.  [self.history] then has [N] entries, that is
    [current_iteration + 1], the sink values read during this call. *)
Theorem C2_budget_exhausted (I : W -> Prop) (s0 : @Env W) w0 :
  1 <= max_iteration (self s0) ->
  run_iteration (world s0) = inr w0 ->
  I w0 ->
  (forall w, I w -> _stop w = false) ->
  (forall w, I w -> exists val0 w1 w2 val1,
      loop_end_evaluate w = inr val0 /\
      loop_start_set val0 w = inr w1 /\
      run_iteration w1 = inr w2 /\ I w2 /\
      loop_end_evaluate w2 = inr val1 /\
      converged val0 val1 (tolerance (self s0)) = false) ->
  exists s',
    execute s0 =
    Raise (RuntimeError "Max iterations exceeded without convergence.") s' /\
    current_iteration (self s') = max_iteration (self s0) - 1 /\
    length (history (self s')) = Z.to_nat (max_iteration (self s0)) /\
    length (history (self s')) = Z.to_nat (current_iteration (self s') + 1) /\
    exists tr,
      trace s' = trace s0 ++ tr /\
      runs tr = Z.to_nat (1 + (max_iteration (self s0) - 1)) /\
      sets tr = Z.to_nat (max_iteration (self s0) - 1) /\
      history (self s') = sink_values tr.
Proof.
  intros HN Hrun0 HI0 Hstop Hmove.
  unfold execute, bind at 1.
  pose proof (prologue_inv s0) as Hp.
  destruct (prologue s0) as [history s|e s|] eqn:Hpro; [| |contradiction].
  2:{ exfalso. revert Hpro. unfold prologue, bind, do_run_iteration.
      rewrite Hrun0. cbn. unfold zeros.
      destruct (Z.ltb_spec (max_iteration (self s0)) 0) as [Hneg|Hneg]; [lia|].
      cbn. unfold do_evaluate. cbn.
      destruct (Hmove _ HI0) as (val0 & _ & _ & _ & Hev0 & _).
      rewrite Hev0. cbn. unfold setitem. rewrite length_replicate.
      rewrite index_in_range by lia. discriminate. }
  destruct Hp as (Hz & (w & v & Hrun & Hw & Hev & Hv) & Hinv).
  assert (w = w0) as -> by congruence.
  pose proof Hinv as (HN' & _).
  cbn.
  destruct (while_unconverged_exhausts I s0 Hstop Hmove
              (Z.to_nat (max_iteration (self s))) history s v)
    as (hf & sf & Hloop & Hinvf & Hitf).
  { assumption. }
  { rewrite Hw. assumption. }
  { rewrite Hz. assumption. }
  { rewrite Hw. assumption. }
  { rewrite Hz. lia. }
  exists (stored hf sf). split; [exact Hloop|].
  destruct Hinvf as (HNf & _ & _ & Hit & Hlen & tr & Htr & Hsink & Hruns & Hsets).
  unfold stored. cbn.
  rewrite slice_to_nonneg by lia.
  split; [assumption|].
  split; [rewrite length_take_le; lia|].
  split; [rewrite length_take_le; lia|].
  exists tr. rewrite Hruns, Hsets, Hitf.
  repeat split; auto; [f_equal; lia|].
  rewrite <- Hitf. symmetry. assumption.
Qed.

(** C3. When a stop has been requested at the head of a pass, the pass
    raises [RunStopped] at once, in the very state it started in: nothing
    was logged (no write to the source, no workflow run, no read of the
    sink), and neither [self.history] nor [current_iteration] was
    assigned.  No condition is put on the counter: the stop is seen before
    the check of the budget.  When that head is one [execute] reaches,
    this is how [execute] ends. *)
Theorem C3_stop_precedes_all_work history (s : @Env W) :
  _stop (world s) = true ->
  loop_body history s = Raise (RunStopped "Stop requested") s /\
  (forall fuel,
      while_unconverged (S fuel) history s =
      Raise (RunStopped "Stop requested") s) /\
  (forall s0,
      loop_state s0 history s ->
      execute s0 = Raise (RunStopped "Stop requested") s).
Proof.
  intros Hstop. split; [apply loop_body_stop; assumption|].
  assert (Hloop : forall fuel,
             while_unconverged (S fuel) history s =
             Raise (RunStopped "Stop requested") s).
  { intros fuel. rewrite while_unconverged_S, loop_body_stop by assumption.
    reflexivity. }
  split; [exact Hloop|].
  intros s0 Hstate. destruct (execute_at_head _ _ _ Hstate) as (fuel & Hfuel & ->).
  pose proof (loop_state_inv _ _ _ Hstate) as (_ & _ & _ & Hit & _).
  destruct fuel as [|fuel]; [lia|]. apply Hloop.
Qed.

(** C4 (amended). When [execute] raises: for the [RuntimeError] of the
    exhausted budget, [self.history] is exactly the sink values read
    during this call, [current_iteration + 1] of them, with nothing added
    and nothing left over; for every other exception ([RunStopped], an
    error of the workflow or of an expression, numpy's errors on a
    [max_iteration] below 1), [self.history] has not been assigned and is
    what it was when [execute] was called. *)
Theorem C4_history_when_execute_raises (s0 : @Env W) e s' :
  execute s0 = Raise e s' ->
  match e with
  | RuntimeError _ =>
      current_iteration (self s') = max_iteration (self s0) - 1 /\
      exists tr,
        trace s' = trace s0 ++ tr /\
        history (self s') = sink_values tr /\
        length (history (self s')) = Z.to_nat (current_iteration (self s') + 1)
  | _ => history (self s') = history (self s0)
  end.
Proof.
  intros Hex. pose proof (execute_total s0) as Hpost.
  rewrite Hex in Hpost. destruct e; exact Hpost.
Qed.

End Driver.

(** ** On the feedback loops of one variable *)

Lemma C1_witness :
  loop_body (wf := identity_workflow) first_array first_head =
  Return (Break, 3%float :: 3%float :: replicate 23 0%float)
         (stepped first_head 3%float (world first_head) 3%float) /\
  history (self (stored (3%float :: 3%float :: replicate 23 0%float)
                        (stepped first_head 3%float (world first_head) 3%float)))
  = [3%float; 3%float].
Proof.
  pose proof (C1_break_iff_below_tolerance (wf := identity_workflow)
                (fresh 25 3 7) first_array first_head 3%float
                (world first_head) (world first_head) 3%float) as H.
  destruct H as (_ & (fl & Hbody & Hfl) & _).
  - apply loop_enter. reflexivity.
  - reflexivity.
  - reflexivity.
  - reflexivity.
  - reflexivity.
  - reflexivity.
  - reflexivity.
  - split; [|reflexivity].
    rewrite Hbody. destruct Hfl as [_ ->]; reflexivity.
Defined.

Lemma C2_witness :
  exists s',
    execute (wf := flip_workflow) (fresh 3 0 0) =
    Raise (RuntimeError "Max iterations exceeded without convergence.") s' /\
    current_iteration (self s') = 2 /\
    length (history (self s')) = 3%nat.
Proof.
  destruct (C2_budget_exhausted (wf := flip_workflow)
              (fun w => stop w = false /\ (sink w = 1%float \/ sink w = 0%float))
              (fresh 3 0 0) {| source := 0; sink := 1; stop := false |})
    as (s' & Hex & Hit & Hlen & _).
  - cbn. lia.
  - reflexivity.
  - split; [reflexivity|left; reflexivity].
  - intros w [Hs _]. exact Hs.
  - intros [src snk stp] [Hs [Hk|Hk]]; cbn in Hs, Hk; subst.
    + exists 1%float, {| source := 1; sink := 1; stop := false |},
             {| source := 1; sink := 0; stop := false |}, 0%float.
      repeat split; try reflexivity. right. reflexivity.
    + exists 0%float, {| source := 0; sink := 0; stop := false |},
             {| source := 0; sink := 1; stop := false |}, 1%float.
      repeat split; try reflexivity. left. reflexivity.
  - exists s'. repeat split; assumption.
Defined.

(** C2, as stated, fails: with [max_iteration = 2] and the flip workflow
    (the sink moves by 1 at each run), [execute] raises with two entries
    in [self.history], not [2 - 1]. *)
Lemma C2_counterexample :
  exists s',
    execute (wf := flip_workflow) (fresh 2 0 0) =
    Raise (RuntimeError "Max iterations exceeded without convergence.") s' /\
    sink_values (trace s') = [1%float; 0%float] /\
    converged 1 0 (tolerance (self s')) = false /\
    current_iteration (self s') = 1 /\
    history (self s') = [1%float; 0%float] /\
    length (history (self s')) <> Z.to_nat (2 - 1).
Proof.
  eexists. split; [reflexivity|]. cbn.
  repeat split; try reflexivity. discriminate.
Qed.

Lemma C3_witness :
  execute (wf := stopping_workflow) (fresh 25 3 0) =
  Raise (RunStopped "Stop requested")
        (with_world {| source := 3; sink := 3; stop := true |} first_head).
Proof.
  destruct (C3_stop_precedes_all_work (wf := stopping_workflow) first_array
              (with_world {| source := 3; sink := 3; stop := true |} first_head)
              eq_refl) as (_ & _ & Hexecute).
  apply Hexecute. apply loop_enter. reflexivity.
Defined.

Lemma C4_witness :
  exists s',
    execute (wf := stopping_workflow) (second_call 7) =
    Raise (RunStopped "Stop requested") s' /\
    history (self s') = history (self (second_call 7)).
Proof.
  eexists. split; [reflexivity|].
  apply (C4_history_when_execute_raises (wf := stopping_workflow)
           (second_call 7) (RunStopped "Stop requested")).
  reflexivity.
Defined.

(** C4, as stated, fails: a first call of [execute] converges and leaves
    [[3.0, 3.0]] in [self.history].  A second call reads the sink at 7.0
    and then ends, by the stop a component asked for, or by the error a
    component raises in the first pass: in both cases [self.history] is
    still [[3.0, 3.0]], the record of the first call, and not the value
    the second call read. *)
Lemma C4_counterexample :
  (exists s1, execute (wf := identity_workflow) (fresh 25 3 0) = Return tt s1 /\
              self s1 = after_first_call) /\
  (exists s2,
    execute (wf := stopping_workflow) (second_call 7) =
    Raise (RunStopped "Stop requested") s2 /\
    sink_values (trace s2) = [7%float] /\
    history (self s2) = [3%float; 3%float] /\
    history (self s2) <> sink_values (trace s2)) /\
  (exists s2,
    execute (wf := failing_workflow) (second_call 0) =
    Raise (Propagated "ValueError: input out of range") s2 /\
    sink_values (trace s2) = [7%float] /\
    history (self s2) = [3%float; 3%float] /\
    history (self s2) <> sink_values (trace s2)).
Proof.
  split; [|split].
  - eexists. split; reflexivity.
  - eexists. split; [reflexivity|]. cbn.
    repeat split; try reflexivity. discriminate.
  - eexists. split; [reflexivity|]. cbn.
    repeat split; try reflexivity. discriminate.
Qed.

(** C5. On a driver as [__init__] leaves it, with [max_iteration = 25]
    and [tolerance = 0.00001], the workflow [sink := source] and the
    source at 3.0 (whatever the sink holds before), [execute] returns;
    [current_iteration] is then 1 and [self.history] is [[3.0, 3.0]]: one
    initial run and one pass. *)
Theorem C5_identity_converges_at_first_pass (y : float) :
  self (fresh 25 3 y) = __init__ /\
  max_iteration (self (fresh 25 3 y)) = 25 /\
  tolerance (self (fresh 25 3 y)) = 0.00001%float /\
  source (world (fresh 25 3 y)) = 3%float /\
  exists s',
    execute (wf := identity_workflow) (fresh 25 3 y) = Return tt s' /\
    current_iteration (self s') = 1 /\
    history (self s') = [3%float; 3%float] /\
    trace s' = [EvRun; EvEvaluate 3; EvSet 3; EvRun; EvEvaluate 3]%float.
Proof.
  repeat split. eexists. split; [reflexivity|]. repeat split.
Qed.

(** ** More on [execute] *)

Section Calls.

Context {W : Type} {wf : Workflow W}.

Arguments converged : simpl never.

(** Every call of [execute] ends in one of the three ways of
    [ends_at]. *)
Lemma while_unconverged_ends_at (s0 : @Env W) fuel : forall history s,
  loop_state s0 history s ->
  (Z.to_nat (max_iteration (self s) - current_iteration (self s)) <= fuel)%nat ->
  ends_at s0 (while_unconverged fuel history s).
Proof.
  induction fuel as [|fuel IH]; intros history s Hstate Hfuel;
    pose proof (loop_state_inv _ _ _ Hstate) as (_ & _ & _ & Hit & Hlen & _).
  { lia. }
  rewrite while_unconverged_S.
  pose proof (loop_body_inv history s ltac:(lia) Hlen) as Hb.
  destruct (loop_body history s) as [[[] history'] s'|e s'|] eqn:Hbody;
    [| | |contradiction].
  - eapply ends_at_break; eassumption.
  - destruct Hb as (val0 & w1 & w2 & val1 & _ & Hlt & _ & _ & _ & _ & _ & _ & Hs').
    apply IH.
    + eapply loop_again; eassumption.
    + rewrite Hs'. cbn. lia.
  - eapply ends_at_raise; eassumption.
Qed.

Lemma execute_ends_at (s0 : @Env W) : ends_at s0 (execute s0).
Proof.
  unfold execute, bind at 1.
  pose proof (prologue_inv s0) as Hp.
  destruct (prologue s0) as [history s|e s|] eqn:Hpro; [| |contradiction].
  - cbn. apply while_unconverged_ends_at; [apply loop_enter; exact Hpro|].
    destruct Hp as (Hz & _). rewrite Hz. lia.
  - apply ends_before_loop. exact Hpro.
Qed.

(** *** The calls made *)

Lemma passes_snoc vs : forall prev v,
  passes prev (vs ++ [v]) =
  passes prev vs ++ [EvSet (default prev (last vs)); EvRun; EvEvaluate v].
Proof.
  induction vs as [|x vs IH]; intros prev v; cbn; [reflexivity|].
  rewrite IH.
  assert (default x (last vs) = default prev (last (x :: vs))) as ->; [|reflexivity].
  destruct vs as [|y vs]; [reflexivity|].
  change (last (x :: y :: vs)) with (last (y :: vs)).
  destruct (last (y :: vs)) eqn:Hlast; [reflexivity|].
  apply last_None in Hlast. discriminate.
Qed.

Lemma calls_of_snoc vs p v :
  last vs = Some p ->
  calls_of (vs ++ [v]) = calls_of vs ++ [EvSet p; EvRun; EvEvaluate v].
Proof.
  destruct vs as [|x vs]; [discriminate|]. intros Hlast. cbn.
  rewrite passes_snoc. do 5 f_equal.
  destruct vs as [|y vs]; cbn in *; [congruence|].
  rewrite Hlast. reflexivity.
Qed.

Lemma runs_calls_of vs : runs (calls_of vs) = length vs.
Proof.
  destruct vs as [|v vs]; [reflexivity|]. unfold runs. cbn. f_equal.
  revert v. induction vs as [|x vs IH]; intros v; cbn; [reflexivity|].
  f_equal. apply IH.
Qed.

Lemma sets_calls_of vs : sets (calls_of vs) = (length vs - 1)%nat.
Proof.
  destruct vs as [|v vs]; [reflexivity|]. unfold sets. cbn.
  rewrite Nat.sub_0_r.
  revert v. induction vs as [|x vs IH]; intros v; cbn; [reflexivity|].
  f_equal. apply IH.
Qed.

Lemma sink_values_calls_of vs : sink_values (calls_of vs) = vs.
Proof.
  destruct vs as [|v vs]; [reflexivity|]. unfold sink_values. cbn. f_equal.
  revert v. induction vs as [|x vs IH]; intros v; cbn; [reflexivity|].
  f_equal. apply IH.
Qed.

(** The log after the lines before the loop. *)
Lemma prologue_trace (s0 : @Env W) history s :
  prologue s0 = Return history s ->
  exists v, history !! 0%nat = Some v /\
            trace s = trace s0 ++ [EvRun; EvEvaluate v].
Proof.
  unfold prologue, bind, do_run_iteration.
  destruct (run_iteration (world s0)) as [e|w0]; [discriminate|].
  cbn. unfold zeros.
  destruct (Z.ltb_spec (max_iteration (self s0)) 0) as [Hneg|Hneg]; [discriminate|].
  cbn. unfold do_evaluate. cbn.
  destruct (loop_end_evaluate w0) as [e|v]; [discriminate|].
  cbn. unfold setitem. rewrite length_replicate.
  destruct (Z.eq_dec (max_iteration (self s0)) 0) as [Hz|Hz].
  { rewrite Hz. cbn. discriminate. }
  rewrite index_in_range by lia. cbn.
  intros [= <- <-]. exists v. split.
  - apply list_lookup_insert_eq. rewrite length_replicate. lia.
  - cbn. rewrite <- app_assoc. reflexivity.
Qed.

(** At every head of the loop, the log is the one of the entries of the
    array up to the counter. *)
Lemma loop_state_calls (s0 : @Env W) history s :
  loop_state s0 history s ->
  trace s =
  trace s0 ++ calls_of (take (Z.to_nat (current_iteration (self s) + 1)) history).
Proof.
  induction 1 as [history s Hpro | history s history' s' Hstate IH Hbody].
  - pose proof (prologue_inv s0) as Hp. rewrite Hpro in Hp.
    destruct Hp as (Hz & _ & _).
    destruct (prologue_trace _ _ _ Hpro) as (v & Hv & ->).
    rewrite Hz. cbn. destruct history as [|x history]; [discriminate|].
    cbn in Hv. injection Hv as ->. destruct history; reflexivity.
  - pose proof (loop_state_inv _ _ _ Hstate) as (_ & _ & _ & Hit & Hlen & _).
    pose proof (loop_body_inv history s ltac:(lia) Hlen) as Hb.
    rewrite Hbody in Hb.
    destruct Hb as (val0 & w1 & w2 & val1 & _ & Hlt & Hval0 & _ & _ & _ & _ & -> & ->).
    cbn. rewrite IH, <- app_assoc. f_equal.
    replace (Z.to_nat (current_iteration (self s) + 1 + 1))
      with (S (Z.to_nat (current_iteration (self s) + 1))) by lia.
    rewrite (take_S_r _ _ val1) by (apply list_lookup_insert_eq; lia).
    rewrite take_insert_ge by lia.
    symmetry. apply calls_of_snoc.
    rewrite last_lookup, length_take_le by lia.
    replace (Z.to_nat (current_iteration (self s) + 1))
      with (S (Z.to_nat (current_iteration (self s)))) by lia.
    cbn. rewrite lookup_take_lt by lia. exact Hval0.
Qed.

(** At every head of the loop, no entry of the array up to the counter
    is within the tolerance of the one before it. *)
Lemma loop_state_unconverged (s0 : @Env W) history s :
  loop_state s0 history s ->
  unconverged_before (tolerance (self s0)) history
                     (Z.to_nat (current_iteration (self s) + 1)).
Proof.
  induction 1 as [history s Hpro | history s history' s' Hstate IH Hbody].
  - pose proof (prologue_inv s0) as Hp. rewrite Hpro in Hp.
    destruct Hp as (Hz & _ & _). rewrite Hz. intros i a b Hi. cbn in Hi. lia.
  - pose proof (loop_state_inv _ _ _ Hstate) as (_ & Htol & _ & Hit & Hlen & _).
    pose proof (loop_body_inv history s ltac:(lia) Hlen) as Hb.
    rewrite Hbody in Hb.
    destruct Hb as (val0 & w1 & w2 & val1 & _ & Hlt & Hval0 & _ & _ & _ & Hfl & -> & ->).
    cbn. intros i a b Hi Ha Hb.
    destruct (decide (i + 1 = Z.to_nat (current_iteration (self s) + 1))%nat)
      as [Heq|Hne].
    + rewrite list_lookup_insert_ne in Ha by lia.
      rewrite Heq, list_lookup_insert_eq in Hb by lia.
      replace i with (Z.to_nat (current_iteration (self s))) in Ha by lia.
      assert (a = val0) as -> by congruence. injection Hb as <-.
      rewrite <- Htol. destruct (converged val0 val1 _); [discriminate|reflexivity].
    + rewrite list_lookup_insert_ne in Ha by lia.
      rewrite list_lookup_insert_ne in Hb by lia.
      apply (IH i a b); [lia|assumption|assumption].
Qed.

(** X1. When [execute] returns, [self.history] holds the sink values
    read during the call, at least two and at most [max_iteration] of
    them, one more than [current_iteration]; its last entry is within
    the tolerance of the one before, and no earlier entry is within the
    tolerance of the one before it: the loop was left at the first pass
    that passed the test. *)
Theorem X1_returns_at_first_convergence (s0 : @Env W) s' :
  execute s0 = Return tt s' ->
  let hs := history (self s') in
  let tol := tolerance (self s0) in
  (2 <= length hs)%nat /\
  Z.of_nat (length hs) <= max_iteration (self s0) /\
  Z.of_nat (length hs) = current_iteration (self s') + 1 /\
  (exists tr, trace s' = trace s0 ++ tr /\ hs = sink_values tr) /\
  (exists a b, hs !! (length hs - 2)%nat = Some a /\
               hs !! (length hs - 1)%nat = Some b /\
               converged a b tol = true) /\
  unconverged_before tol hs (length hs - 1).
Proof.
  intros Hex hs tol.
  pose proof (execute_ends_at s0) as Hend. rewrite Hex in Hend.
  inversion Hend as [|history s history' s1 Hstate Hbody Heq|]; subst.
  pose proof (loop_state_inv _ _ _ Hstate) as Hinv.
  pose proof Hinv as (HN & Htol & _ & Hit & Hlen & _).
  pose proof (loop_state_unconverged _ _ _ Hstate) as Hun.
  pose proof (loop_body_inv history s ltac:(lia) Hlen) as Hb.
  rewrite Hbody in Hb.
  destruct Hb as (val0 & w1 & w2 & val1 & _ & Hlt & Hval0 & _ & _ & _ & Hfl & -> & ->).
  pose proof (loop_inv_stepped s0 history s val0 w2 val1 Hinv Hlt)
    as (_ & _ & _ & _ & _ & tr' & Htr' & Hsink' & _).
  clear Hbody Hend Hex Hinv. subst hs tol. cbn in *.
  rewrite slice_to_nonneg by lia.
  set (it := Z.to_nat (current_iteration (self s))) in *.
  replace (Z.to_nat (current_iteration (self s) + 1)) with (S it) in * by lia.
  replace (Z.to_nat (current_iteration (self s) + 1 + 1)) with (S (S it)) in * by lia.
  assert (Hlen' : length (take (S (S it)) (<[S it := val1]> history)) = S (S it)).
  { rewrite length_take_le; [reflexivity|]. rewrite length_insert. lia. }
  rewrite Hlen'.
  split; [lia|]. split; [lia|]. split; [lia|].
  split; [exists tr'; split; [assumption|symmetry; assumption]|].
  split.
  - exists val0, val1.
    replace (S (S it) - 2)%nat with it by lia.
    replace (S (S it) - 1)%nat with (S it) by lia.
    rewrite !lookup_take_lt by lia.
    rewrite list_lookup_insert_ne by lia.
    rewrite list_lookup_insert_eq by lia.
    repeat split; [assumption|].
    rewrite <- Htol. destruct (converged val0 val1 _); [reflexivity|discriminate].
  - replace (S (S it) - 1)%nat with (S it) by lia.
    intros i a b Hi Ha Hb.
    rewrite lookup_take_lt in Ha by lia. rewrite lookup_take_lt in Hb by lia.
    rewrite list_lookup_insert_ne in Ha by lia.
    rewrite list_lookup_insert_ne in Hb by lia.
    apply (Hun i a b); assumption.
Qed.

(** X2. When [execute] returns, or raises the [RuntimeError] of the
    exhausted budget, the calls it made are those of [self.history]: the
    initial run and the read of the first entry, then for every further
    entry the write of the entry before it to the source, a run, and the
    read of the entry.  So the workflow ran as many times as the history
    has entries, and every value written to the source is the sink value
    read just before. *)
Theorem X2_calls_are_those_of_the_history (s0 : @Env W) s' :
  execute s0 = Return tt s' \/
  execute s0 =
    Raise (RuntimeError "Max iterations exceeded without convergence.") s' ->
  trace s' = trace s0 ++ calls_of (history (self s')) /\
  runs (calls_of (history (self s'))) = length (history (self s')) /\
  sets (calls_of (history (self s'))) = (length (history (self s')) - 1)%nat.
Proof.
  intros Hex. split; [|split; [apply runs_calls_of|apply sets_calls_of]].
  pose proof (execute_ends_at s0) as Hend.
  destruct Hex as [Hex|Hex]; rewrite Hex in Hend.
  - inversion Hend as [|history s history' s1 Hstate Hbody Heq|]; subst.
    pose proof (loop_state_inv _ _ _ Hstate) as (_ & _ & _ & Hit & Hlen & _).
    pose proof (loop_body_inv history s ltac:(lia) Hlen) as Hb.
    rewrite Hbody in Hb.
    destruct Hb as (val0 & w1 & w2 & val1 & _ & Hlt & Hval0 & _ & _ & _ & _ & -> & ->).
    cbn. rewrite slice_to_nonneg by lia.
    rewrite (loop_state_calls _ _ _ Hstate), <- app_assoc. f_equal.
    replace (Z.to_nat (current_iteration (self s) + 1 + 1))
      with (S (Z.to_nat (current_iteration (self s) + 1))) by lia.
    rewrite (take_S_r _ _ val1) by (apply list_lookup_insert_eq; lia).
    rewrite take_insert_ge by lia.
    symmetry. apply calls_of_snoc.
    rewrite last_lookup, length_take_le by lia.
    replace (Z.to_nat (current_iteration (self s) + 1))
      with (S (Z.to_nat (current_iteration (self s)))) by lia.
    cbn. rewrite lookup_take_lt by lia. exact Hval0.
  - inversion Hend as [e s Hpro|
                       |history s e s1 Hstate Hbody]; subst.
    + pose proof (prologue_inv s0) as Hp. rewrite Hpro in Hp.
      destruct Hp as (_ & Hne). exfalso. eapply Hne. reflexivity.
    + pose proof (loop_state_inv _ _ _ Hstate) as (_ & _ & _ & Hit & Hlen & _).
      pose proof (loop_body_inv history s ltac:(lia) Hlen) as Hb.
      rewrite Hbody in Hb.
      destruct Hb as [(Hne & _)|[(_ & _ & Hmax & ->)|(what & Hne & _)]];
        [discriminate| |discriminate].
      cbn. rewrite slice_to_nonneg by lia.
      apply (loop_state_calls _ _ _ Hstate).
Qed.

(** *** The work done in every case *)

(** What a pass that raises has logged. *)
Lemma loop_body_raise_trace history (s : @Env W) e s' :
  0 <= current_iteration (self s) ->
  length history = Z.to_nat (max_iteration (self s)) ->
  loop_body history s = Raise e s' ->
  exists extra,
    trace s' = trace s ++ extra /\
    (runs extra <= 1)%nat /\ (sets extra <= 1)%nat /\
    (extra <> [] -> current_iteration (self s) < max_iteration (self s) - 1).
Proof.
  intros Hit Hlen.
  destruct (_stop (world s)) eqn:Hstop.
  { rewrite loop_body_stop by assumption. intros [= _ <-].
    exists []. rewrite app_nil_r. repeat split; auto; cbn; try lia; try congruence; intros; lia. }
  destruct (Z_le_gt_dec (max_iteration (self s) - 1) (current_iteration (self s)))
    as [Hmax|Hmax].
  { rewrite loop_body_max by assumption. intros [= _ <-].
    exists []. cbn. rewrite app_nil_r. repeat split; auto; cbn; try lia; try congruence; intros; lia. }
  destruct (lookup_lt_is_Some_2 history (Z.to_nat (current_iteration (self s))))
    as [val0 Hval0]; [lia|].
  destruct (loop_start_set val0 (world s)) as [x|w1] eqn:Hset.
  { unfold loop_body, bind, get_stop, get_current_iteration, get_max_iteration.
    rewrite Hstop. cbn.
    destruct (_ >=? _) eqn:Hge; [apply Z.geb_le in Hge; lia|]. cbn.
    rewrite (getitem_in_range _ _ val0) by (lia || assumption). cbn.
    unfold do_set. rewrite Hset. intros [= _ <-].
    exists [EvSet val0]. repeat split; auto; cbn; try lia; try congruence; intros; lia. }
  destruct (run_iteration w1) as [x|w2] eqn:Hrun.
  { unfold loop_body, bind, get_stop, get_current_iteration, get_max_iteration.
    rewrite Hstop. cbn.
    destruct (_ >=? _) eqn:Hge; [apply Z.geb_le in Hge; lia|]. cbn.
    rewrite (getitem_in_range _ _ val0) by (lia || assumption). cbn.
    unfold do_set. rewrite Hset. cbn.
    unfold do_run_iteration. cbn. rewrite Hrun. intros [= _ <-].
    exists [EvSet val0; EvRun]. cbn. rewrite <- app_assoc.
    repeat split; auto; cbn; try lia; try congruence; intros; lia. }
  destruct (loop_end_evaluate w2) as [x|val1] eqn:Heval.
  { unfold loop_body, bind, get_stop, get_current_iteration, get_max_iteration.
    rewrite Hstop. cbn.
    destruct (_ >=? _) eqn:Hge; [apply Z.geb_le in Hge; lia|]. cbn.
    rewrite (getitem_in_range _ _ val0) by (lia || assumption). cbn.
    unfold do_set. rewrite Hset. cbn.
    unfold do_run_iteration. cbn. rewrite Hrun. cbn.
    unfold do_evaluate. cbn. rewrite Heval. intros [= _ <-].
    exists [EvSet val0; EvRun]. cbn. rewrite <- app_assoc.
    repeat split; auto; cbn; try lia; try congruence; intros; lia. }
  rewrite (loop_body_ok history s val0 w1 w2 val1) by (assumption || lia).
  discriminate.
Qed.

(** What the lines before the loop have logged when they raise. *)
Lemma prologue_raise_trace (s0 : @Env W) e s :
  prologue s0 = Raise e s ->
  exists extra, trace s = trace s0 ++ extra /\ runs extra = 1%nat /\ sets extra = 0%nat.
Proof.
  unfold prologue, bind, do_run_iteration.
  destruct (run_iteration (world s0)) as [x|w0].
  { intros [= _ <-]. exists [EvRun]. repeat split. }
  cbn. unfold zeros.
  destruct (Z.ltb_spec (max_iteration (self s0)) 0) as [Hneg|Hneg].
  { intros [= _ <-]. exists [EvRun]. repeat split. }
  cbn. unfold do_evaluate. cbn.
  destruct (loop_end_evaluate w0) as [x|v].
  { intros [= _ <-]. exists [EvRun]. repeat split. }
  cbn. unfold setitem. rewrite length_replicate.
  destruct (index _ 0) as [x|n]; cbn; [|discriminate].
  intros [= _ <-]. exists [EvRun; EvEvaluate v]. cbn. rewrite <- app_assoc.
  repeat split.
Qed.

(** X3. However [execute] ends, and whatever the workflow does, it has
    run the workflow at least once and at most [max_iteration] times
    (once when [max_iteration] is below 1), and has written to the source
    at most [max_iteration - 1] times, never more often than it has run
    the workflow; the loop always comes to an end. *)
Theorem X3_work_is_bounded (s0 : @Env W) :
  match execute s0 with
  | Return _ s' | Raise _ s' =>
      exists tr,
        trace s' = trace s0 ++ tr /\
        (1 <= runs tr)%nat /\
        Z.of_nat (runs tr) <= Z.max 1 (max_iteration (self s0)) /\
        (sets tr <= runs tr)%nat /\
        Z.of_nat (sets tr) <= Z.max 0 (max_iteration (self s0) - 1)
  | OutOfFuel => False
  end.
Proof.
  pose proof (execute_ends_at s0) as Hend.
  destruct Hend as [e s Hpro|history s history' s' Hstate Hbody
                   |history s e s' Hstate Hbody].
  - destruct (prologue_raise_trace _ _ _ Hpro) as (extra & -> & Hr & Hs).
    exists extra. rewrite Hr, Hs. repeat split; lia.
  - pose proof (loop_state_inv _ _ _ Hstate) as Hinv.
    pose proof Hinv as (HN & _ & _ & Hit & Hlen & _).
    pose proof (loop_body_inv history s ltac:(lia) Hlen) as Hb.
    rewrite Hbody in Hb.
    destruct Hb as (val0 & w1 & w2 & val1 & _ & Hlt & _ & _ & _ & _ & _ & -> & ->).
    destruct (loop_inv_stepped s0 history s val0 w2 val1 Hinv Hlt)
      as (_ & _ & _ & _ & _ & tr & Htr & _ & Hruns & Hsets).
    exists tr. cbn in *. rewrite Hruns, Hsets. repeat split; [assumption|lia..].
  - pose proof (loop_state_inv _ _ _ Hstate)
      as (HN & _ & _ & Hit & Hlen & tr & Htr & _ & Hruns & Hsets).
    destruct (loop_body_raise_trace history s e s' ltac:(lia) Hlen Hbody)
      as (extra & -> & Hr & Hs & Hmore).
    exists (tr ++ extra). rewrite Htr, <- app_assoc.
    split; [reflexivity|].
    assert (Hruns' : runs (tr ++ extra) = (runs tr + runs extra)%nat)
      by (unfold runs; rewrite omap_app, length_app; reflexivity).
    assert (Hsets' : sets (tr ++ extra) = (sets tr + sets extra)%nat)
      by (unfold sets; rewrite omap_app, length_app; reflexivity).
    rewrite Hruns', Hsets', Hruns, Hsets.
    destruct extra as [|ev extra].
    + cbn. repeat split; lia.
    + assert (current_iteration (self s) < max_iteration (self s) - 1)
        by (apply Hmore; discriminate).
      repeat split; lia.
Qed.

(** X4. With a [max_iteration] below 1 (and an initial run that does not
    fail), [execute] ends in numpy's errors, not in the [RuntimeError]
    of the budget: a negative [max_iteration] raises [ValueError] at
    [zeros], before the sink is read; [max_iteration = 0] raises
    [IndexError] at [history[0] = ...], after the sink has been read.
    In both cases the workflow has run once, [current_iteration] is 0
    and [self.history] is as it was. *)
Theorem X4_budget_below_one (s0 : @Env W) w0 :
  run_iteration (world s0) = inr w0 ->
  (max_iteration (self s0) < 0 ->
   execute s0 =
   Raise ValueError
         {| self := self (with_record (history (self s0)) 0 s0);
            world := w0;
            trace := trace s0 ++ [EvRun] |}) /\
  (max_iteration (self s0) = 0 ->
   forall v, loop_end_evaluate w0 = inr v ->
   execute s0 =
   Raise IndexError
         {| self := self (with_record (history (self s0)) 0 s0);
            world := w0;
            trace := trace s0 ++ [EvRun; EvEvaluate v] |}).
Proof.
  intros Hrun. split.
  - intros Hneg. unfold execute, prologue, bind, do_run_iteration.
    rewrite Hrun. cbn. unfold zeros.
    destruct (Z.ltb_spec (max_iteration (self s0)) 0) as [_|Hge]; [|lia].
    reflexivity.
  - intros Hz v Heval. unfold execute, prologue, bind, do_run_iteration.
    rewrite Hrun. cbn. unfold zeros. rewrite Hz. cbn.
    unfold do_evaluate. cbn. rewrite Heval. cbn.
    unfold setitem, index, np, raise_exception, log, with_self, with_world. cbn.
    rewrite <- app_assoc. reflexivity.
Qed.

(** *** The record of an earlier call *)

Lemma loop_body_with_record history x (s : @Env W) :
  loop_body history (with_record x (current_iteration (self s)) s) =
  relabel_pass x (loop_body history s).
Proof.
  unfold loop_body, bind, get_stop, get_current_iteration, get_max_iteration,
    get_tolerance, set_current_iteration, set_history, do_set,
    do_run_iteration, do_evaluate, np, raise_exception, ret.
  cbn.
  destruct (_stop (world s)); cbn; [reflexivity|].
  destruct (_ >=? _); cbn; [reflexivity|].
  unfold getitem at 1 3. unfold index.
  destruct (_ && _); cbn.
  2:{ destruct (_ && _); cbn; [|reflexivity].
      destruct (history !! _); cbn; [|reflexivity].
      destruct (loop_start_set _ _); cbn; [reflexivity|].
      destruct (run_iteration _); cbn; [reflexivity|].
      destruct (loop_end_evaluate _); cbn; [reflexivity|].
      unfold setitem, index.
      destruct (_ && _); cbn.
      2:{ destruct (_ && _); cbn; [|reflexivity].
          unfold getitem, index. rewrite length_insert.
          destruct (_ && _); cbn.
          2:{ destruct (_ && _); cbn; [|reflexivity].
              destruct (_ !! _); cbn; [|reflexivity].
              destruct (converged _ _ _); reflexivity. }
          destruct (_ !! _); cbn; [|reflexivity].
          destruct (converged _ _ _); reflexivity. }
      unfold getitem, index. rewrite length_insert.
      destruct (_ && _); cbn.
      2:{ destruct (_ && _); cbn; [|reflexivity].
          destruct (_ !! _); cbn; [|reflexivity].
          destruct (converged _ _ _); reflexivity. }
      destruct (_ !! _); cbn; [|reflexivity].
      destruct (converged _ _ _); reflexivity. }
  destruct (history !! _); cbn; [|reflexivity].
  destruct (loop_start_set _ _); cbn; [reflexivity|].
  destruct (run_iteration _); cbn; [reflexivity|].
  destruct (loop_end_evaluate _); cbn; [reflexivity|].
  unfold setitem, index.
  destruct (_ && _); cbn.
  2:{ destruct (_ && _); cbn; [|reflexivity].
      unfold getitem, index. rewrite length_insert.
      destruct (_ && _); cbn.
      2:{ destruct (_ && _); cbn; [|reflexivity].
          destruct (_ !! _); cbn; [|reflexivity].
          destruct (converged _ _ _); reflexivity. }
      destruct (_ !! _); cbn; [|reflexivity].
      destruct (converged _ _ _); reflexivity. }
  unfold getitem, index. rewrite length_insert.
  destruct (_ && _); cbn.
  2:{ destruct (_ && _); cbn; [|reflexivity].
      destruct (_ !! _); cbn; [|reflexivity].
      destruct (converged _ _ _); reflexivity. }
  destruct (_ !! _); cbn; [|reflexivity].
  destruct (converged _ _ _); reflexivity.
Qed.

Lemma while_unconverged_with_record x fuel : forall history (s : @Env W),
  while_unconverged fuel history (with_record x (current_iteration (self s)) s) =
  relabel_end x (while_unconverged fuel history s).
Proof.
  induction fuel as [|fuel IH]; intros history s; [reflexivity|].
  rewrite !while_unconverged_S, loop_body_with_record.
  destruct (loop_body history s) as [[[] history'] s'|e s'|]; cbn.
  - reflexivity.
  - apply IH.
  - destruct e; reflexivity.
  - reflexivity.
Qed.

Lemma same_end_relabel x (r : @outcome W unit) :
  r <> OutOfFuel -> same_end r (relabel_end x r).
Proof.
  destruct r as [[] s|e s|]; cbn; [reflexivity| |congruence].
  intros _. destruct e; cbn; repeat split.
Qed.

(** X5. The record of an earlier call has no part in what [execute]
    does: started with any other [self.history] and
    [self.current_iteration], it makes the same calls and ends the same
    way, and when it returns or raises the [RuntimeError] of the budget
    it ends in the very same state. *)
Theorem X5_earlier_record_is_not_read (x : list float) (it : Z) (s0 : @Env W) :
  same_end (execute s0) (execute (with_record x it s0)).
Proof.
  assert (Hnf : execute s0 <> OutOfFuel).
  { pose proof (execute_total s0) as Hpost. intros Heq. rewrite Heq in Hpost.
    exact Hpost. }
  revert Hnf.
  unfold execute, prologue, bind, do_run_iteration, get_max_iteration. cbn.
  destruct (run_iteration (world s0)) as [e|w0]; cbn; [repeat split|].
  unfold zeros.
  destruct (max_iteration (self s0) <? 0); cbn; [repeat split|].
  unfold do_evaluate. cbn.
  destruct (loop_end_evaluate w0) as [e|v]; cbn; [repeat split|].
  unfold setitem, index.
  destruct (_ && _); cbn.
  2:{ destruct (_ && _); cbn; [|repeat split].
      intros Hnf.
      match goal with
      | |- same_end (while_unconverged ?f ?h ?a) (while_unconverged ?f ?h ?b) =>
          change b with (with_record x (current_iteration (self a)) a)
      end.
      rewrite while_unconverged_with_record. apply same_end_relabel, Hnf. }
  intros Hnf.
  match goal with
  | |- same_end (while_unconverged ?f ?h ?a) (while_unconverged ?f ?h ?b) =>
      change b with (with_record x (current_iteration (self a)) a)
  end.
  rewrite while_unconverged_with_record. apply same_end_relabel, Hnf.
Qed.

(** The last two entries of [self.history] when [execute] returns. *)
Lemma returns_last_pair (s0 : @Env W) s' :
  execute s0 = Return tt s' ->
  exists a b,
    history (self s') !! (length (history (self s')) - 2)%nat = Some a /\
    history (self s') !! (length (history (self s')) - 1)%nat = Some b /\
    converged a b (tolerance (self s0)) = true.
Proof.
  intros Hex.
  pose proof (execute_ends_at s0) as Hend. rewrite Hex in Hend.
  inversion Hend as [|history s history' s1 Hstate Hbody Heq|]; subst.
  pose proof (loop_state_inv _ _ _ Hstate) as (_ & Htol & _ & Hit & Hlen & _).
  pose proof (loop_body_inv history s ltac:(lia) Hlen) as Hb.
  rewrite Hbody in Hb.
  destruct Hb as (val0 & w1 & w2 & val1 & _ & Hlt & Hval0 & _ & _ & _ & Hfl & -> & ->).
  clear Hbody Hend Hex. cbn.
  rewrite slice_to_nonneg by lia.
  set (it := Z.to_nat (current_iteration (self s))) in *.
  replace (Z.to_nat (current_iteration (self s) + 1)) with (S it) in * by lia.
  replace (Z.to_nat (current_iteration (self s) + 1 + 1)) with (S (S it)) by lia.
  rewrite length_take_le by (rewrite length_insert; lia).
  exists val0, val1.
  replace (S (S it) - 2)%nat with it by lia.
  replace (S (S it) - 1)%nat with (S it) by lia.
  rewrite !lookup_take_lt by lia.
  rewrite list_lookup_insert_ne by lia.
  rewrite list_lookup_insert_eq by lia.
  repeat split; [assumption|].
  rewrite <- Htol. destruct (converged val0 val1 _); [reflexivity|discriminate].
Qed.

End Calls.

(** *** The test on binary64 numbers *)

Lemma SFcompare_finite_refl s m e :
  SFcompare (S754_finite s m e) (S754_finite s m e) = Some Eq.
Proof.
  cbn. rewrite Z.compare_refl.
  destruct s; rewrite ?Pos.compare_cont_refl; reflexivity.
Qed.

Lemma is_finite_spec x :
  is_finite x =
  match Prim2SF x with
  | S754_zero _ | S754_finite _ _ _ => true
  | _ => false
  end.
Proof.
  unfold is_finite, is_nan, is_infinity.
  rewrite !FloatAxioms.eqb_spec, FloatAxioms.abs_spec.
  change (Prim2SF infinity) with (S754_infinity false).
  destruct (Prim2SF x) as [s| s| |s m e]; try reflexivity.
  - destruct s; reflexivity.
  - unfold SFeqb. rewrite SFcompare_finite_refl. reflexivity.
Qed.

Lemma SFltb_abs_positive d t :
  SFltb (SFabs d) t = true -> SFltb (S754_zero false) t = true.
Proof.
  destruct d as [sd|sd| |sd md ed], t as [st|st| |st mt et]; cbn;
    try discriminate; try reflexivity; try (destruct st; cbn; congruence).
Qed.

Lemma SFltb_abs_sub_finite a b t :
  SFltb (SFabs (SFsub prec emax a b)) t = true ->
  match a with S754_zero _ | S754_finite _ _ _ => True | _ => False end /\
  match b with S754_zero _ | S754_finite _ _ _ => True | _ => False end.
Proof.
  destruct a as [sa|sa| |sa ma ea], b as [sb|sb| |sb mb eb];
    try (intros _; split; exact I).
  all: destruct t as [st|st| |st mt et];
    try destruct sa; try destruct sb; try destruct st; cbn; discriminate.
Qed.

(** The test passes only with a tolerance above zero and between two
    finite numbers. *)
Lemma converged_needs v0 v1 tol :
  converged v0 v1 tol = true ->
  PrimFloat.ltb 0 tol = true /\ is_finite v0 = true /\ is_finite v1 = true.
Proof.
  unfold converged.
  rewrite !FloatAxioms.ltb_spec, FloatAxioms.abs_spec, FloatAxioms.sub_spec,
    !is_finite_spec.
  change (Prim2SF 0) with (S754_zero false).
  unfold SF64sub. intros H. split; [eapply SFltb_abs_positive; exact H|].
  apply SFltb_abs_sub_finite in H as [H1 H0].
  destruct (Prim2SF v0), (Prim2SF v1); try contradiction; split; reflexivity.
Qed.

(** X6. [execute] returns only when [tolerance] is above zero and the
    last two sink values are finite numbers: with a tolerance that is
    zero, negative or NaN, or while the sink reads NaN or an infinity,
    the test [abs(val1-val0) < tolerance] is false and the loop goes on
    until the budget is exhausted. *)
Theorem X6_returns_need_positive_tolerance_and_finite_values
    {W : Type} {wf : Workflow W} (s0 : @Env W) s' :
  execute s0 = Return tt s' ->
  PrimFloat.ltb 0 (tolerance (self s0)) = true /\
  exists a b,
    history (self s') !! (length (history (self s')) - 2)%nat = Some a /\
    history (self s') !! (length (history (self s')) - 1)%nat = Some b /\
    is_finite a = true /\ is_finite b = true.
Proof.
  intros Hex.
  destruct (returns_last_pair s0 s' Hex) as (a & b & Ha & Hb & Hconv).
  apply converged_needs in Hconv as (Htol & Hfa & Hfb).
  split; [exact Htol|]. exists a, b. auto.
Qed.

(** *** On the feedback loops of one variable *)

Lemma X1_witness :
  execute (wf := identity_workflow) (fresh 25 3 0) = Return tt identity_final /\
  unconverged_before 0.00001 [3%float; 3%float] 1.
Proof.
  split; [reflexivity|].
  apply (X1_returns_at_first_convergence (wf := identity_workflow)
           (fresh 25 3 0) identity_final eq_refl).
Defined.

Lemma X2_witness :
  trace flip_final = calls_of [1%float; 0%float] /\
  runs (calls_of [1%float; 0%float]) = 2%nat.
Proof.
  destruct (X2_calls_are_those_of_the_history (wf := flip_workflow)
              (fresh 2 0 0) flip_final (or_intror eq_refl)) as (Htrace & Hruns & _).
  split; [exact Htrace|exact Hruns].
Defined.

Lemma X4_witness :
  execute (wf := identity_workflow) (fresh (-1) 3 0) =
  Raise ValueError
        {| self := self (fresh (-1) 3 0);
           world := {| source := 3; sink := 3; stop := false |};
           trace := [EvRun] |} /\
  execute (wf := identity_workflow) (fresh 0 3 0) =
  Raise IndexError
        {| self := self (fresh 0 3 0);
           world := {| source := 3; sink := 3; stop := false |};
           trace := [EvRun; EvEvaluate 3%float] |}.
Proof.
  split.
  - apply (X4_budget_below_one (wf := identity_workflow) (fresh (-1) 3 0)
             {| source := 3; sink := 3; stop := false |} eq_refl).
    reflexivity.
  - apply (X4_budget_below_one (wf := identity_workflow) (fresh 0 3 0)
             {| source := 3; sink := 3; stop := false |} eq_refl);
      reflexivity.
Defined.

Lemma X6_witness :
  PrimFloat.ltb 0 0.00001 = true /\
  exists a b,
    [3%float; 3%float] !! 0%nat = Some a /\
    [3%float; 3%float] !! 1%nat = Some b /\
    is_finite a = true /\ is_finite b = true.
Proof.
  apply (X6_returns_need_positive_tolerance_and_finite_values
           (wf := identity_workflow) (fresh 25 3 0) identity_final eq_refl).
Defined.

End IterateProofs.

(* ===================================================================== *)
(** * Properties of the variable tree                                     *)
(* ===================================================================== *)

Module VarTreeProofs.
Import VarTree.

(** ** Induction on trees *)

(** Induction on a tree, with the hypothesis for every child. *)
Lemma tree_ind (P : VariableTree -> Prop) :
  (forall n io l d, Forall (on_tree P) d -> P (mkVariableTree n io l d)) ->
  forall t, P t.
Proof.
  intros H. fix IH 1. intros [n io l d]. apply H.
  induction d as [|[k [v|v]] d IHd]; constructor; try assumption.
  - exact I.
  - apply IH.
Qed.

(** ** The setter *)

Lemma set_iotype_skip val t : _iotype t = val -> set_iotype val t = t.
Proof. destruct t as [n io l d]. cbn. intros ->. case_decide; congruence. Qed.

Lemma set_iotype_changed val n io l d :
  val <> io ->
  set_iotype val (mkVariableTree n io l d) =
  mkVariableTree n val (if decide (val = Some "in") then true else false)
                 (map (cascade val) d).
Proof.
  intros Hne. cbn. case_decide; [contradiction|].
  unfold on_trait_change. destruct (decide (val = Some "in")); reflexivity.
Qed.

Lemma set_iotype_iotype val t : _iotype (set_iotype val t) = val.
Proof.
  destruct t as [n io l d]. destruct (decide (val = io)) as [->|Hne].
  - rewrite set_iotype_skip; reflexivity.
  - rewrite set_iotype_changed by assumption. reflexivity.
Qed.

Lemma set_iotype_listening val t :
  val <> _iotype t ->
  (listening (set_iotype val t) = true <-> val = Some "in").
Proof.
  destruct t as [n io l d]. intros Hne. cbn [_iotype] in Hne.
  rewrite set_iotype_changed by assumption. cbn.
  case_decide; split; congruence.
Qed.

Lemma set_iotype_hook_ok val t : hook_ok t -> hook_ok (set_iotype val t).
Proof.
  intros Hok. destruct (decide (val = _iotype t)) as [->|Hne].
  - rewrite set_iotype_skip; auto.
  - unfold hook_ok. rewrite set_iotype_iotype. apply set_iotype_listening, Hne.
Qed.

Lemma nodes_unfold t : nodes t = t :: descendants t.
Proof.
  destruct t as [n io l d]. cbn. f_equal. unfold descendants, children. cbn.
  induction d as [|[k [v|v]] d IHd]; cbn; [reflexivity|assumption|].
  rewrite IHd. reflexivity.
Qed.

Lemma children_cascade val d :
  omap (fun kv : string * attr VariableTree =>
          match kv.2 with Tree v => Some v | Leaf _ => None end)
       (map (cascade val) d) =
  set_iotype val <$>
  omap (fun kv : string * attr VariableTree =>
          match kv.2 with Tree v => Some v | Leaf _ => None end) d.
Proof.
  induction d as [|[k [v|v]] d IHd]; cbn; [reflexivity|assumption|].
  cbn in IHd. rewrite IHd. reflexivity.
Qed.

(** In a node whose direction changes, the children are those of before,
    each after the setter. *)
Lemma children_set_iotype val t :
  val <> _iotype t ->
  children (set_iotype val t) = set_iotype val <$> children t.
Proof.
  destruct t as [n io l d]. intros Hne. cbn [_iotype] in Hne.
  rewrite set_iotype_changed by assumption.
  unfold children. cbn [__dict__]. apply children_cascade.
Qed.

Lemma descendants_fmap (f : VariableTree -> VariableTree) cs :
  flat_map nodes (f <$> cs) = flat_map (fun c => nodes (f c)) cs.
Proof. induction cs as [|c cs IH]; cbn; [reflexivity|]. rewrite IH. reflexivity. Qed.

(** The setter reaches every node of a tree in which no node carries the
    new direction yet. *)
Lemma set_iotype_reaches_all t : forall val,
  Forall (fun d => _iotype d <> val) (nodes t) ->
  Forall (carries val) (nodes (set_iotype val t)).
Proof.
  induction t as [n io l d IH] using tree_ind. intros val Hall.
  assert (Hne : val <> io).
  { rewrite nodes_unfold in Hall. inversion Hall. cbn in *. congruence. }
  rewrite nodes_unfold. unfold descendants at 1.
  rewrite children_set_iotype by exact Hne.
  rewrite nodes_unfold in Hall. apply Forall_cons_1 in Hall as [_ Hall].
  constructor.
  { split; [apply set_iotype_iotype|].
    rewrite set_iotype_changed by assumption. reflexivity. }
  unfold descendants in *.
  rewrite descendants_fmap. unfold children in *. cbn [__dict__] in *.
  induction d as [|[k [v|v]] d IHd]; cbn in *.
  - constructor.
  - apply IHd; [inversion IH; assumption|assumption].
  - apply Forall_app in Hall as [Hv Hall].
    apply Forall_app. split.
    + inversion IH as [|? ? Hhead _]. apply Hhead. exact Hv.
    + apply IHd; [inversion IH; assumption|assumption].
Qed.

Lemma set_iotype_erase t : forall val, erase (set_iotype val t) = erase t.
Proof.
  induction t as [n io l d IH] using tree_ind. intros val.
  destruct (decide (val = io)) as [->|Hne].
  { rewrite set_iotype_skip by reflexivity. reflexivity. }
  rewrite set_iotype_changed by assumption. cbn. f_equal.
  induction d as [|[k [v|v]] d IHd]; cbn.
  - reflexivity.
  - f_equal. apply IHd. inversion IH; assumption.
  - inversion IH as [|? ? Hhead Htail]. cbn in Hhead.
    rewrite Hhead. f_equal. apply IHd. assumption.
Qed.

(** The hooks stay right in the whole tree. *)
Lemma set_iotype_hooks t : forall val,
  Forall hook_ok (nodes t) -> Forall hook_ok (nodes (set_iotype val t)).
Proof.
  induction t as [n io l d IH] using tree_ind. intros val Hall.
  destruct (decide (val = io)) as [->|Hne].
  { rewrite set_iotype_skip by reflexivity. assumption. }
  rewrite nodes_unfold. unfold descendants at 1.
  rewrite children_set_iotype by exact Hne.
  rewrite nodes_unfold in Hall. apply Forall_cons_1 in Hall as [Hroot Hall].
  constructor; [apply set_iotype_hook_ok; exact Hroot|]. clear Hroot.
  unfold descendants in *.
  rewrite descendants_fmap. unfold children in *. cbn [__dict__] in *.
  induction d as [|[k [v|v]] d IHd]; cbn in *.
  - constructor.
  - apply IHd; [inversion IH; assumption|assumption].
  - apply Forall_app in Hall as [Hv Hall].
    apply Forall_app. split.
    + inversion IH as [|? ? Hhead _]. apply Hhead. exact Hv.
    + apply IHd; [inversion IH; assumption|assumption].
Qed.

Lemma calls_hook_ok vals : forall t,
  hook_ok t -> hook_ok (foldl (fun t val => set_iotype val t) t vals).
Proof.
  induction vals as [|val vals IH]; intros t Hok; cbn; [exact Hok|].
  apply IH, set_iotype_hook_ok, Hok.
Qed.

Lemma calls_hooks vals : forall t,
  Forall hook_ok (nodes t) ->
  Forall hook_ok (nodes (foldl (fun t val => set_iotype val t) t vals)).
Proof.
  induction vals as [|val vals IH]; intros t Hok; cbn; [exact Hok|].
  apply IH, set_iotype_hooks, Hok.
Qed.

(** ** Notification: who is told *)

Lemma climb_root_most self parent :
  (climb self parent).1 = root_most self parent.
Proof.
  revert self. induction parent as [|p g IH|c]; intros self; cbn; auto.
Qed.

Lemma climb_owner self parent :
  (climb self parent).2 =
  match owner parent with Some c => ParentOther c | None => ParentNone end.
Proof.
  revert self. induction parent as [|p g IH|c]; intros self; cbn; auto.
Qed.

Lemma root_most_chain self ps r c :
  root_most self (chain (ps ++ [r]) (ParentOther c)) = r.
Proof.
  revert self. induction ps as [|p ps IH]; intros self; cbn; [reflexivity|].
  apply IH.
Qed.

Lemma owner_chain ps c : owner (chain ps (ParentOther c)) = Some c.
Proof. induction ps as [|p ps IH]; cbn; auto. Qed.

(** ** What the setter, [tree_rooted] and the handler do *)

(** C6 (amended). When the new direction differs from the node's: the
    node takes it, and the setter is applied to every child that is a
    [VariableTree], so every such child carries the new direction; a
    child that carried it already is left as it was, with all that is
    below it.  When no node below carried the new direction before (as
    when all of them carried the node's old one), every node below
    carries it after, and its hook is registered exactly when the new
    direction is ['in'].  Names, attribute names and the values that are
    not [VariableTree]s are as before. *)
Theorem C6_cascade (val : option string) (t : VariableTree) :
  val <> _iotype t ->
  _iotype (set_iotype val t) = val /\
  children (set_iotype val t) = set_iotype val <$> children t /\
  Forall (fun c => _iotype c = val) (children (set_iotype val t)) /\
  (forall c, c ∈ children t -> _iotype c = val ->
             c ∈ children (set_iotype val t)) /\
  (Forall (fun d => _iotype d <> val) (descendants t) ->
   Forall (carries val) (descendants (set_iotype val t))) /\
  erase (set_iotype val t) = erase t.
Proof.
  intros Hne.
  pose proof (children_set_iotype val t Hne) as Hch.
  split; [apply set_iotype_iotype|].
  split; [exact Hch|].
  split.
  { rewrite Hch. apply Forall_fmap, Forall_forall. intros c _. cbn.
    apply set_iotype_iotype. }
  split.
  { intros c Hc Hio. rewrite Hch. apply list_elem_of_fmap.
    exists c. split; [|exact Hc]. symmetry. apply set_iotype_skip, Hio. }
  split; [|apply set_iotype_erase].
  intros Hall.
  assert (Hnodes : Forall (fun d => _iotype d <> val) (nodes t)).
  { rewrite nodes_unfold. constructor; [congruence|exact Hall]. }
  apply set_iotype_reaches_all in Hnodes.
  rewrite nodes_unfold in Hnodes. apply Forall_cons_1 in Hnodes as [_ Hd].
  exact Hd.
Qed.

Lemma C6_witness :
  Forall (carries (Some "in")) (descendants (set_iotype (Some "in") (uniform (Some "out")))) /\
  set_iotype (Some "in") (uniform (Some "out")) = uniform (Some "in").
Proof.
  split; [|reflexivity].
  apply (C6_cascade (Some "in") (uniform (Some "out"))).
  - discriminate.
  - repeat constructor; discriminate.
Defined.

(** C6, as stated, fails: in [mixed] the child [c] is already ['in'] and
    its child [g] is ['out']; setting the root to ['in'] leaves [c] as it
    is, and below it [g], still ['out'] and without its hook. *)
Lemma C6_counterexample :
  Some "in" <> _iotype mixed /\
  exists g, g ∈ descendants (set_iotype (Some "in") mixed) /\
            name g = "g" /\ _iotype g = Some "out" /\ listening g = false /\
            _iotype g <> Some "in".
Proof.
  split; [discriminate|].
  exists (mkVariableTree "g" (Some "out") false []).
  split; [|repeat split; discriminate].
  cbn. apply list_elem_of_In. cbn. right. left. reflexivity.
Qed.

(** C7. Along any sequence of calls of the setter on a node, the hook is
    registered exactly when the direction is ['in']: this holds after
    the calls if it held before, of the node and of every node below it;
    it holds of a node made by [__init__]; and a call that changes the
    direction leaves the hook registered exactly when the new direction
    is ['in']. *)
Theorem C7_listening_iff_in (vals : list (option string)) (t : VariableTree) :
  let calls := foldl (fun t val => set_iotype val t) in
  (hook_ok t -> hook_ok (calls t vals)) /\
  (Forall hook_ok (nodes t) -> Forall hook_ok (nodes (calls t vals))) /\
  (forall io, hook_ok (calls (__init__ io) vals)) /\
  (forall val, val <> _iotype t ->
               (listening (set_iotype val t) = true <-> val = Some "in")).
Proof.
  intros calls. split; [apply calls_hook_ok|]. split; [apply calls_hooks|]. split.
  - intros io. apply calls_hook_ok. unfold __init__.
    apply set_iotype_hook_ok. split; discriminate.
  - intros val. apply set_iotype_listening.
Qed.

Lemma C7_witness :
  hook_ok (foldl (fun t val => set_iotype val t) (uniform (Some "out"))
                 [Some "in"; None; Some "in"; Some "out"]) /\
  listening (foldl (fun t val => set_iotype val t) (uniform (Some "out"))
                   [Some "in"; None; Some "in"]) = true.
Proof.
  split.
  - apply (C7_listening_iff_in [Some "in"; None; Some "in"; Some "out"]
                               (uniform (Some "out"))).
    split; discriminate.
  - apply (C7_listening_iff_in [Some "in"; None; Some "in"]
                               (uniform (Some "out"))); [|reflexivity].
    split; discriminate.
Defined.

(** C8 (amended). When an attribute whose name does not begin with an
    underscore changes on a node whose hook is registered, and the tree
    is held by a container (the parent of its root-most [VariableTree]
    is not [None]), exactly one call is made, on that container, with
    the name of the root-most [VariableTree] and that tree as old and new
    value, however many [VariableTree]s ([ps], then [r]) are between the
    node and the container.  When the root-most [VariableTree] has no
    parent, no call is made. *)
Theorem C8_one_call_named_for_the_root self parent attr :
  listening self = true ->
  String.prefix "_" attr = false ->
  attribute_changed self parent attr =
    match owner parent with
    | Some c => [InputTraitModified c (name (root_most self parent))
                                    (root_most self parent) (root_most self parent)]
    | None => []
    end /\
  forall ps r c,
    parent = chain (ps ++ [r]) (ParentOther c) ->
    attribute_changed self parent attr = [InputTraitModified c (name r) r r].
Proof.
  intros Hl Hpub.
  assert (Hcall : attribute_changed self parent attr =
                  match owner parent with
                  | Some c => [InputTraitModified c (name (root_most self parent))
                                 (root_most self parent) (root_most self parent)]
                  | None => []
                  end).
  { unfold attribute_changed, _input_trait_modified. rewrite Hl, Hpub.
    pose proof (climb_root_most self parent) as Hr.
    pose proof (climb_owner self parent) as Ho.
    destruct (climb self parent) as [vt p]. cbn in Hr, Ho. subst vt p.
    destruct (owner parent); reflexivity. }
  split; [exact Hcall|].
  intros ps r c ->. rewrite Hcall, owner_chain, root_most_chain. reflexivity.
Qed.

Lemma C8_witness :
  attribute_changed (mkVariableTree "g" (Some "in") true [])
    (chain [mkVariableTree "c" (Some "in") true []; uniform (Some "in")]
           (ParentOther component)) "x" =
  [InputTraitModified component "t" (uniform (Some "in")) (uniform (Some "in"))].
Proof.
  apply (C8_one_call_named_for_the_root
           (mkVariableTree "g" (Some "in") true [])
           (chain [mkVariableTree "c" (Some "in") true []; uniform (Some "in")]
                  (ParentOther component)) "x" eq_refl eq_refl).
Defined.

(** C8, as stated, fails: the same change in the same tree, when no
    container holds the tree, makes no call at all. *)
Lemma C8_counterexample :
  listening (mkVariableTree "g" (Some "in") true []) = true /\
  String.prefix "_" "x" = false /\
  attribute_changed (mkVariableTree "g" (Some "in") true [])
    (chain [mkVariableTree "c" (Some "in") true []; uniform (Some "in")]
           ParentNone) "x" = [] /\
  length (attribute_changed (mkVariableTree "g" (Some "in") true [])
            (chain [mkVariableTree "c" (Some "in") true []; uniform (Some "in")]
                   ParentNone) "x") <> 1%nat.
Proof. repeat split. cbn. discriminate. Qed.

(** C9. Setting the direction a node already has returns the node as it
    was: its direction, its hook and everything below it. *)
Theorem C9_same_direction_is_noop (t : VariableTree) :
  set_iotype (iotype t) t = t.
Proof. apply set_iotype_skip. reflexivity. Qed.

(** C10. As long as [Container.tree_rooted] leaves the direction of the
    node alone: under a parent that is a [VariableTree], [tree_rooted]
    gives the node the direction of the parent, whatever its own was;
    under another container whose trait of the node's name has a true
    [iotype], it gives the node that [iotype]. *)
Theorem C10_tree_rooted_overwrites
    (Container_tree_rooted : VariableTree -> VariableTree) :
  (forall t, _iotype (Container_tree_rooted t) = _iotype t) ->
  (forall p grandparent self,
      iotype (tree_rooted Container_tree_rooted (ParentTree p grandparent) self)
      = iotype p) /\
  (forall c self t,
      trait c (name self) = Some t ->
      truthy (trait_iotype t) = true ->
      iotype (tree_rooted Container_tree_rooted (ParentOther c) self)
      = trait_iotype t).
Proof.
  intros Hsuper. split.
  - intros p g self. unfold iotype, tree_rooted.
    rewrite Hsuper. apply set_iotype_iotype.
  - intros c self t Ht Htruthy. unfold iotype, tree_rooted.
    rewrite Hsuper, Ht, Htruthy. apply set_iotype_iotype.
Qed.

Lemma C10_witness :
  iotype (tree_rooted (fun t => t) (ParentTree (uniform (Some "in")) ParentNone)
                      (uniform (Some "out"))) = Some "in" /\
  iotype (tree_rooted (fun t => t) (ParentOther component)
                      (uniform (Some "out"))) = Some "in".
Proof.
  destruct (C10_tree_rooted_overwrites (fun t => t) (fun t => eq_refl)) as [Htree Hother].
  split.
  - apply (Htree (uniform (Some "in")) ParentNone (uniform (Some "out"))).
  - apply (Hother component (uniform (Some "out")) {| trait_iotype := Some "in" |});
      reflexivity.
Defined.

(** ** More on the setter *)



(** X7. In a tree where every node carries the direction [d], with its
    hook as the setter leaves it for [d], setting any direction and then
    [d] again gives back the tree as it was. *)
Theorem X7_change_and_back (d val : option string) (t : VariableTree) :
  Forall (carries d) (nodes t) ->
  set_iotype d (set_iotype val t) = t.
Proof.
  revert d val. induction t as [n io l dct IH] using tree_ind.
  intros d val Hall.
  rewrite nodes_unfold in Hall. apply Forall_cons_1 in Hall as [[Hio Hl] Hall].
  cbn in Hio, Hl. subst io l.
  destruct (decide (val = d)) as [->|Hne].
  { do 2 (rewrite set_iotype_skip by (reflexivity || apply set_iotype_iotype)).
    reflexivity. }
  rewrite set_iotype_changed by assumption.
  rewrite set_iotype_changed by congruence.
  f_equal. unfold descendants, children in Hall. cbn [__dict__] in Hall.
  induction dct as [|[k [v|v]] dct IHd]; cbn in *.
  - reflexivity.
  - f_equal. apply IHd; [inversion IH; assumption|assumption].
  - apply Forall_app in Hall as [Hv Hall].
    inversion IH as [|? ? Hhead Htail]. cbn in Hhead.
    rewrite (Hhead d val Hv). f_equal. apply IHd; assumption.
Qed.

Lemma X7_witness :
  set_iotype (Some "out") (set_iotype (Some "in") (uniform (Some "out")))
  = uniform (Some "out").
Proof.
  apply (X7_change_and_back (Some "out") (Some "in") (uniform (Some "out"))).
  repeat constructor.
Defined.


(** X9. [tree_rooted] leaves the direction of the node as it is when
    there is nothing to take one from: no parent; a parent that is not a
    [VariableTree] and has no trait of the node's name; or such a trait
    whose [iotype] is [None] or the empty string.  Under a parent that
    is not a [VariableTree], the direction changes only if the trait
    exists and has a non-empty [iotype].  ([Container.tree_rooted] is
    taken to leave the direction of the node alone.) *)
Theorem X9_tree_rooted_without_a_direction_to_take
    (Container_tree_rooted : VariableTree -> VariableTree)
    (self : VariableTree) :
  (forall t, _iotype (Container_tree_rooted t) = _iotype t) ->
  iotype (tree_rooted Container_tree_rooted ParentNone self) = iotype self /\
  (forall c,
      trait c (name self) = None ->
      iotype (tree_rooted Container_tree_rooted (ParentOther c) self)
      = iotype self) /\
  (forall c t,
      trait c (name self) = Some t ->
      trait_iotype t = None \/ trait_iotype t = Some "" ->
      iotype (tree_rooted Container_tree_rooted (ParentOther c) self)
      = iotype self) /\
  (forall c,
      iotype (tree_rooted Container_tree_rooted (ParentOther c) self)
      <> iotype self ->
      exists t io, trait c (name self) = Some t /\
                   trait_iotype t = Some io /\ io <> "").
Proof.
  intros Hsuper. unfold iotype, tree_rooted.
  split; [apply Hsuper|]. split; [|split].
  - intros c Hnone. rewrite Hsuper, Hnone. reflexivity.
  - intros c t Ht Hfalsy. rewrite Hsuper, Ht.
    destruct Hfalsy as [-> | ->]; reflexivity.
  - intros c Hchanged. rewrite Hsuper in Hchanged.
    destruct (trait c (name self)) as [t|]; [|contradiction].
    destruct (trait_iotype t) as [io|] eqn:Hio; cbn in Hchanged; [|contradiction].
    destruct (decide (io = "")) as [->|Hne]; [contradiction|].
    exists t, io. auto.
Qed.

Lemma X9_witness :
  iotype (tree_rooted (fun t => t) ParentNone (uniform (Some "out"))) = Some "out" /\
  iotype (tree_rooted (fun t => t) (ParentOther component)
            (mkVariableTree "v" (Some "out") false [])) = Some "out".
Proof.
  destruct (X9_tree_rooted_without_a_direction_to_take (fun t => t)
              (uniform (Some "out")) (fun t => eq_refl)) as (Hnone & _).
  destruct (X9_tree_rooted_without_a_direction_to_take (fun t => t)
              (mkVariableTree "v" (Some "out") false []) (fun t => eq_refl))
    as (_ & Hmissing & _).
  split; [exact Hnone|]. apply Hmissing. reflexivity.
Defined.

(** X10. [get_iotype] gives the direction of the tree for every name
    that has a trait, whatever [iotype] that trait declares, so after
    the setter it gives the value set, for every such name; for a name
    without a trait it raises, whatever the direction. *)
Theorem X10_get_iotype_after_the_setter
    (get_trait : VariableTree -> string -> option CTrait)
    (val : option string) (self : VariableTree) (name_ : string) :
  (forall t, get_trait (set_iotype val self) name_ = Some t ->
             get_iotype get_trait (set_iotype val self) name_ = inr val) /\
  (get_trait (set_iotype val self) name_ = None ->
   get_iotype get_trait (set_iotype val self) name_
   = inl ("'" ++ name_ ++ "' not found")%string).
Proof.
  unfold get_iotype, iotype. split.
  - intros t ->. f_equal. apply set_iotype_iotype.
  - intros ->. reflexivity.
Qed.

Lemma X10_witness :
  get_iotype (fun _ n => trait component n)
             (set_iotype (Some "in") (uniform (Some "out"))) "u" = inr (Some "in") /\
  get_iotype (fun _ n => trait component n)
             (set_iotype (Some "in") (uniform (Some "out"))) "w"
  = inl "'w' not found".
Proof.
  destruct (X10_get_iotype_after_the_setter (fun _ n => trait component n)
              (Some "in") (uniform (Some "out")) "u") as (Hfound & _).
  destruct (X10_get_iotype_after_the_setter (fun _ n => trait component n)
              (Some "in") (uniform (Some "out")) "w") as (_ & Hmissing).
  split.
  - apply (Hfound {| trait_iotype := Some "out" |}). reflexivity.
  - apply Hmissing. reflexivity.
Defined.

(** X11. On a node whose hook is registered exactly when its direction
    is ['in']: after the setter has given it a direction other than
    ['in'], a change of one of its attributes calls nobody; after the
    setter has given it ['in'], a change of an attribute whose name does
    not begin with an underscore, in a tree that a container holds,
    calls that container once, with the name of the root-most
    [VariableTree]. *)
Theorem X11_notification_follows_the_direction (val : option string)
    (self : VariableTree) (parent : Parent) (attr : string) :
  hook_ok self ->
  (val <> Some "in" ->
   attribute_changed (set_iotype val self) parent attr = []) /\
  (val = Some "in" ->
   String.prefix "_" attr = false ->
   forall c, owner parent = Some c ->
   attribute_changed (set_iotype val self) parent attr =
   [InputTraitModified c (name (root_most (set_iotype val self) parent))
      (root_most (set_iotype val self) parent)
      (root_most (set_iotype val self) parent)]).
Proof.
  intros Hok. apply (set_iotype_hook_ok val) in Hok.
  unfold hook_ok in Hok. rewrite set_iotype_iotype in Hok.
  unfold attribute_changed. split.
  - intros Hne. destruct (listening (set_iotype val self)); [|reflexivity].
    exfalso. apply Hne, Hok. reflexivity.
  - intros Hin Hpub c Hc. apply Hok in Hin. rewrite Hin.
    unfold _input_trait_modified. rewrite Hpub.
    pose proof (climb_root_most (set_iotype val self) parent) as Hr.
    pose proof (climb_owner (set_iotype val self) parent) as Ho.
    destruct (climb (set_iotype val self) parent) as [vt p].
    cbn in Hr, Ho. subst vt p. rewrite Hc. reflexivity.
Qed.

Lemma X11_witness :
  attribute_changed (set_iotype (Some "out") (uniform (Some "in")))
                    (ParentOther component) "x" = [] /\
  attribute_changed (set_iotype (Some "in") (uniform (Some "out")))
                    (ParentOther component) "x" =
  [InputTraitModified component "t" (uniform (Some "in")) (uniform (Some "in"))].
Proof.
  split.
  - apply (X11_notification_follows_the_direction (Some "out")
             (uniform (Some "in")) (ParentOther component) "x").
    + split; reflexivity.
    + discriminate.
  - apply (X11_notification_follows_the_direction (Some "in")
             (uniform (Some "out")) (ParentOther component) "x");
      try reflexivity.
    split; discriminate.
Defined.

End VarTreeProofs.

(* ===================================================================== *)
(** * Properties of the page elements                                     *)
(* ===================================================================== *)

Module ElementsProofs.
Import Elements.

Section Descriptor.

Context {Page : Type} `{Countable Page}.
Context {Driver WebElement : Type}.
Variable browser : Page -> Driver.
Variable root : Page -> option WebElement.

Lemma get_fields (d : @BaseElement Page _ _ Driver WebElement) page :
  _cls (get browser root d page).2 = _cls d /\
  _locator (get browser root d page).2 = _locator d.
Proof. unfold get. destruct (_elements d !! page); split; reflexivity. Qed.

Lemma get_cache_ok d page :
  cache_ok browser root d -> cache_ok browser root (get browser root d page).2.
Proof.
  intros Hok. unfold get.
  destruct (_elements d !! page) as [element|] eqn:Hlookup; [exact Hok|].
  intros q e. cbn. destruct (decide (page = q)) as [->|Hne].
  - rewrite lookup_insert_eq. congruence.
  - rewrite lookup_insert_ne by assumption. apply Hok.
Qed.

Lemma get_element d page :
  cache_ok browser root d ->
  (get browser root d page).1 = new_element browser root (_cls d) page (_locator d).
Proof.
  intros Hok. unfold get.
  destruct (_elements d !! page) as [element|] eqn:Hlookup; [|reflexivity].
  apply Hok. exact Hlookup.
Qed.

Lemma get_dom (d : @BaseElement Page _ _ Driver WebElement) page :
  dom (_elements (get browser root d page).2) = {[page]} ∪ dom (_elements d).
Proof.
  unfold get.
  destruct (_elements d !! page) as [element|] eqn:Hlookup; cbn.
  - apply elem_of_dom_2 in Hlookup.
    apply set_eq. intros q. rewrite elem_of_union, elem_of_singleton.
    split; [auto|]. intros [->|Hq]; assumption.
  - apply dom_insert_L.
Qed.

Lemma gets_snoc (d : @BaseElement Page _ _ Driver WebElement) pages page :
  gets browser root d (pages ++ [page]) =
  (get browser root (gets browser root d pages) page).2.
Proof. unfold gets. rewrite foldl_snoc. reflexivity. Qed.

(** What holds of a descriptor made for a class and a locator, after
    [get] for any pages. *)
Lemma gets_init cls loc pages :
  cache_ok browser root (gets browser root (__init__ cls loc) pages) /\
  dom (_elements (gets browser root (__init__ cls loc) pages))
  = list_to_set pages /\
  _cls (gets browser root (__init__ cls loc) pages) = cls /\
  _locator (gets browser root (__init__ cls loc) pages) = loc.
Proof.
  induction pages as [|q pages IH] using rev_ind.
  - repeat split. intros q e Hq. cbn in Hq. rewrite lookup_empty in Hq.
    discriminate.
  - destruct IH as (Hok & Hdom & Hcls & Hloc).
    rewrite gets_snoc.
    destruct (get_fields (gets browser root (__init__ cls loc) pages) q)
      as [Hc Hl].
    split; [apply get_cache_ok, Hok|].
    split; [|split; congruence].
    rewrite get_dom, Hdom, list_to_set_app_L. cbn.
    rewrite (right_id_L ∅ (∪)). apply (comm_L (∪)).
Qed.

(** X12. A descriptor made for a class and a locator, after [get] for
    any pages in any order: [get(page)] gives the element of that class,
    with that locator and with the browser and the root of that very
    page; the dictionary holds the pages asked for, and no other. *)
Theorem X12_get_gives_the_element_of_the_page
    (cls : element_class) (loc : locator) (pages : list Page) (page : Page) :
  let d := gets browser root (__init__ cls loc) pages in
  (get browser root d page).1 = new_element browser root cls page loc /\
  dom (_elements d) = list_to_set pages /\
  _cls d = cls /\ _locator d = loc.
Proof.
  cbn zeta. destruct (gets_init cls loc pages) as (Hok & Hdom & Hcls & Hloc).
  rewrite (get_element _ _ Hok), Hcls, Hloc. auto.
Qed.

(** X13. [get] asked again for the same page gives the same element and
    leaves the descriptor as the first call left it; and what [get]
    gives for a page, and the descriptor that two calls leave, do not
    depend on whether another page was asked for before or after. *)
Theorem X13_get_again_and_in_any_order
    (d : @BaseElement Page _ _ Driver WebElement) (p q : Page) :
  get browser root (get browser root d p).2 p = get browser root d p /\
  (p <> q ->
   (get browser root (get browser root d q).2 p).1 = (get browser root d p).1) /\
  (get browser root (get browser root d p).2 q).2
  = (get browser root (get browser root d q).2 p).2.
Proof.
  split; [|split].
  - unfold get.
    destruct (_elements d !! p) as [e|] eqn:Hp; cbn.
    + rewrite Hp. reflexivity.
    + rewrite lookup_insert_eq. reflexivity.
  - intros Hne. unfold get.
    destruct (_elements d !! q) as [e|] eqn:Hq; cbn; [reflexivity|].
    rewrite lookup_insert_ne by congruence.
    destruct (_elements d !! p); reflexivity.
  - destruct (decide (p = q)) as [->|Hne]; [reflexivity|].
    unfold get.
    destruct (_elements d !! p) as [e|] eqn:Hp,
             (_elements d !! q) as [e'|] eqn:Hq; cbn;
      rewrite ?Hp, ?Hq, ?lookup_insert_ne by congruence;
      rewrite ?Hp, ?Hq; cbn; try reflexivity.
    f_equal. apply insert_insert_ne. congruence.
Qed.

End Descriptor.

Lemma X13_witness :
  (get (fun _ : positive => 7%nat) (fun _ => @None nat)
       (get (fun _ : positive => 7%nat) (fun _ => @None nat)
            (ButtonElement ("id", "ok")) 2%positive).2 1%positive).1
  = (get (fun _ : positive => 7%nat) (fun _ => @None nat)
         (ButtonElement ("id", "ok")) 1%positive).1.
Proof.
  apply (X13_get_again_and_in_any_order (fun _ : positive => 7%nat)
           (fun _ => @None nat) (ButtonElement ("id", "ok")) 1%positive 2%positive).
  discriminate.
Defined.

(** ** The text input *)

(** X14. Once the element is found, displayed, enabled and empty, the
    setter of the text input ends after the first [send_keys], in the
    state of the browser that call left: it returns if the call did,
    raises [NameError] (at the warning it is about to log) if the call
    met a stale element, and raises the exception of the call
    otherwise.  It never sends the keys a second time, and it returns
    exactly when [set_values] with the one value does. *)
Theorem X14_the_setter_sends_the_keys_once
    {B E : Type} {driver : WebDriver B E} (new_value : string) (b : B) :
  set_value new_value b =
  match prepare b with
  | inl (e, b') => Raised e b'
  | inr (el, b') =>
      match send_keys el [new_value] b' with
      | (None, b'') => Returned b''
      | (Some StaleElementReferenceException, b'') =>
          Raised (NameError "logging") b''
      | (Some e, b'') => Raised e b''
      end
  end /\
  forall b', set_value new_value b = Returned b' <->
             set_values [new_value] b = Returned b'.
Proof.
  unfold set_value, set_values.
  destruct (prepare b) as [[e b1]|[el b1]]; [split; [reflexivity|tauto]|].
  cbn. destruct (send_keys el [new_value] b1) as [[e|] b2].
  - destruct e; (split; [reflexivity|]); intros b'; split; discriminate.
  - split; [reflexivity|tauto].
Qed.

End ElementsProofs.
